(** * groups_sync: UW Groups to local system groups

    A shallow embedding of [groups_sync.py] and the properties of its
    reconciliation logic.

    Python [str] values are modelled as [string]; one [ascii] stands for one
    code point below 256.  Python [int] counters are [nat], process return
    codes are [Z].  Everything the program obtains from outside (the HTTPS
    request, the [getent] and [gpasswd] subprocesses) is an oracle on an
    abstract world, threaded through a small state, error and output monad. *)

From Stdlib Require Import ZArith Ascii String DecimalString.
From stdpp Require Import base decidable list gmap strings.

Local Open Scope list_scope.

(** ** Python primitives used by the program *)

Module Py.

(** [str.isspace] on one code point below 256: TAB, LF, VT, FF, CR, the four
    separators FS, GS, RS, US, SPACE, NEL and NBSP. *)
Definition isspace (c : ascii) : bool :=
  let n := nat_of_ascii c in
  ((9 <=? n) && (n <=? 13)) || ((28 <=? n) && (n <=? 32))
  || (n =? 133) || (n =? 160).

Fixpoint lstrip (s : string) : string :=
  match s with
  | "" => ""
  | String c s' => if isspace c then lstrip s' else s
  end.

Fixpoint rstrip (s : string) : string :=
  match s with
  | "" => ""
  | String c s' =>
      match rstrip s' with
      | "" => if isspace c then "" else String c ""
      | r => String c r
      end
  end.

(** [s.strip()] *)
Definition strip (s : string) : string := rstrip (lstrip s).

(** [s.split(sep)] for a one-character separator, which is what both call
    sites pass.  The result is never empty: [split sep ""] is [[""]]. *)
Fixpoint split (sep : ascii) (s : string) : list string :=
  match s with
  | "" => [""]
  | String c s' =>
      if Ascii.eqb c sep then "" :: split sep s'
      else match split sep s' with
           | h :: t => String c h :: t
           | [] => [String c ""]
           end
  end.

(** [str(n)] for a non-negative [int]. *)
Definition str_of_nat (n : nat) : string :=
  NilEmpty.string_of_uint (Nat.to_uint n).

(** *** The fragment of [re] the program uses

    A pattern is a sequence of atoms; [re.match] looks for a match that
    starts at the beginning of the subject and may end anywhere. *)

Inductive cset :=
| Range (lo hi : ascii).

Definition in_range (r : cset) (c : ascii) : bool :=
  match r with
  | Range lo hi =>
      (nat_of_ascii lo <=? nat_of_ascii c) && (nat_of_ascii c <=? nat_of_ascii hi)
  end.

(** A bracket expression is a union of ranges. *)
Definition in_class (cls : list cset) (c : ascii) : bool :=
  existsb (fun r => in_range r c) cls.

Inductive atom :=
| Bol                                     (* ^ *)
| Eol                                     (* $ *)
| Set_ (cls : list cset)                  (* [...] *)
| Rep (cls : list cset) (lo hi : nat).    (* [...]{lo,hi} *)

(** [$] without [re.MULTILINE]: at the end of the subject, or just before a
    newline that is the last character of the subject. *)
Definition at_eol (s : string) : bool :=
  match s with
  | "" => true
  | String c "" => Ascii.eqb c "010"%char
  | _ => false
  end.

(** Greedy bounded repetition with backtracking: take one more character
    of the class when possible, otherwise (or when the rest then fails)
    stop here, provided the lower bound is reached.  [bos] tells whether
    the position is still the beginning of the subject. *)
Fixpoint rep (cls : list cset) (lo hi : nat)
    (k : bool -> string -> bool) (bos : bool) (s : string) : bool :=
  match hi with
  | 0 => (lo =? 0) && k bos s
  | S hi' =>
      match s with
      | String c s' => in_class cls c && rep cls (pred lo) hi' k false s'
      | "" => false
      end
      || ((lo =? 0) && k bos s)
  end.

Fixpoint match_here (pat : list atom) (bos : bool) (s : string) : bool :=
  match pat with
  | [] => true
  | Bol :: pat' => bos && match_here pat' bos s
  | Eol :: pat' => at_eol s && match_here pat' bos s
  | Set_ cls :: pat' =>
      match s with
      | String c s' => in_class cls c && match_here pat' false s'
      | "" => false
      end
  | Rep cls lo hi :: pat' => rep cls lo hi (match_here pat') bos s
  end.

(** [re.match(pat, s)] as a truth value ([None] is falsy, a match object
    is truthy). *)
Definition re_match (pat : list atom) (s : string) : bool :=
  match_here pat true s.

End Py.

(** ** Values, exceptions and process results *)

(** What [r.json()] can return: the Python image of a JSON document.  A
    number is kept as its source text; a dict is its items in insertion
    order, keys distinct. *)
#[local] Unset Elimination Schemes.
Inductive pyval :=
| PNone
| PBool (b : bool)
| PNum (repr : string)
| PStr (s : string)
| PList (items : list pyval)
| PDict (items : list (string * pyval)).
#[local] Set Elimination Schemes.

(** Exceptions.  All but [SystemExit] derive from [Exception]; [OtherError]
    stands for whatever a library or the operating system raises
    ([requests] errors, JSON decoding errors, [OSError], ...). *)
Inductive exn :=
| PyException (arg : string)
| KeyError (key : string)
| IndexError
| TypeError
| OtherError (name detail : string)
| SystemExit (code : Z).

(** What a call into a library or the operating system raises: the class
    name and the message of an exception derived from [Exception]. *)
Definition raised : Type := string * string.

Definition of_raised {A} (r : raised + A) : exn + A :=
  match r with
  | inl (name, detail) => inl (OtherError name detail)
  | inr a => inr a
  end.

(** [isinstance(e, Exception)] *)
Definition is_Exception (e : exn) : bool :=
  match e with
  | SystemExit _ => false
  | _ => true
  end.

(** [subprocess.CompletedProcess] with [capture_output=True, text=True] *)
Record CompletedProcess := {
  returncode : Z;
  stdout : string;
  stderr : string
}.

(** [requests.Response], as far as the program looks at it: the outcome of
    [r.json()]. *)
Record Response := {
  json : raised + pyval
}.

(** The configuration [main] reads; [group_map] is a dict, here its items
    in insertion order. *)
Record Config := {
  gws_base_url : string;
  gws_ca_cert : string;
  gws_client_cert : string;
  gws_client_key : string;
  group_map : list (string * string)
}.

(** What the process does that can be seen from outside, in order: the
    HTTPS requests and subprocesses it runs, with their outcome, and the
    lines it prints.  [Print msg None] is [print(msg)]; [Print msg (Some e)]
    is [print(msg, sys.exc_info())] while [e] is being handled. *)
Inductive event :=
| Get (url verify : string) (cert : string * string) (res : exn + Response)
| Run (argv : list string) (res : exn + CompletedProcess)
| Print (msg : string) (exc_info : option exn).

(** *** Subscripting, iteration and comparison of values *)

Fixpoint assoc (k : string) (d : list (string * pyval)) : option pyval :=
  match d with
  | [] => None
  | (k', v) :: d' => if String.eqb k k' then Some v else assoc k d'
  end.

(** [v[k]] for a string key [k] *)
Definition getitem (v : pyval) (k : string) : exn + pyval :=
  match v with
  | PDict d =>
      match assoc k d with
      | Some x => inr x
      | None => inl (KeyError k)
      end
  | _ => inl TypeError
  end.

Fixpoint chars (s : string) : list pyval :=
  match s with
  | "" => []
  | String c s' => PStr (String c "") :: chars s'
  end.

(** [iter(v)]: the items of a list, the keys of a dict, the characters of
    a string; other values are not iterable. *)
Definition iter (v : pyval) : exn + list pyval :=
  match v with
  | PList l => inr l
  | PDict d => inr (map (fun kv => PStr (fst kv)) d)
  | PStr s => inr (chars s)
  | _ => inl TypeError
  end.

(** [v == s] for a string [s] *)
Definition eq_str (v : pyval) (s : string) : bool :=
  match v with
  | PStr s' => String.eqb s' s
  | _ => false
  end.

(** ** The program *)

(** Pure computations that may raise. *)
Definition ebind {A B} (m : exn + A) (k : A -> exn + B) : exn + B :=
  match m with
  | inl e => inl e
  | inr a => k a
  end.

Notation "x <-? m ;; k" := (ebind m (fun x => k))
  (at level 20, m at level 99, k at level 200, only parsing).

(** The personal NetID pattern of the source, [^[a-z][a-z0-9]{0,7}$]. *)
Definition netid_re : list Py.atom :=
  [Py.Bol; Py.Set_ [Py.Range "a" "z"];
   Py.Rep [Py.Range "a" "z"; Py.Range "0" "9"] 0 7; Py.Eol].

(** The loop of [get_uw_group_members] over [r.json()["data"]];
    [group_members] is the list built so far. *)
Fixpoint members_loop (data : list pyval) (group_members : list string)
    : exn + list string :=
  match data with
  | [] => inr group_members
  | member :: rest =>
      ty <-? getitem member "type" ;;
      if eq_str ty "uwnetid" then
        (id <-? getitem member "id" ;;
         match id with
         | PStr s =>
             if Py.re_match netid_re s
             then members_loop rest (group_members ++ [s])
             else members_loop rest group_members
         | _ => inl TypeError
         end)
      else members_loop rest group_members
  end.

(** Lines 30 to 39 of the source, from the response to the returned list. *)
Definition members_of_response (r : Response) : exn + list string :=
  doc <-? of_raised (json r) ;;
  data <-? getitem doc "data" ;;
  items <-? iter data ;;
  members_loop items [].

(** A member entry [{"type": ty, "id": id}] and the response whose body is
    [{"data": [...]}], the shape the directory service documents. *)
Definition entry (tyid : string * string) : pyval :=
  PDict [("type", PStr tyid.1); ("id", PStr tyid.2)].

Definition response (entries : list (string * string)) : Response :=
  {| json := inr (PDict [("data", PList (map entry entries))]) |}.

Section Program.

Context {World : Type}.

(** [requests.get(url, verify=..., cert=...)] *)
Variable requests_get :
  string -> string -> string * string -> World -> (raised + Response) * World.

(** [subprocess.run(argv, capture_output=True, text=True)] *)
Variable subprocess_run :
  list string -> World -> (raised + CompletedProcess) * World.

(** A computation takes the world, returns a value or raises, leaves a new
    world, and emits events. *)
Definition M (A : Type) : Type := World -> (exn + A) * World * list event.

Definition ret {A} (a : A) : M A := fun w => (inr a, w, []).

Definition raise {A} (e : exn) : M A := fun w => (inl e, w, []).

Definition bind {A B} (m : M A) (k : A -> M B) : M B :=
  fun w =>
    match m w with
    | (inl e, w', t) => (inl e, w', t)
    | (inr a, w', t) =>
        let '(r, w'', t') := k a w' in (r, w'', t ++ t')
    end.

(** [try: m  except Exception: h]; [SystemExit] is not an [Exception] and
    passes through. *)
Definition try_except {A} (m : M A) (h : exn -> M A) : M A :=
  fun w =>
    match m w with
    | (inl e, w', t) =>
        if is_Exception e
        then let '(r, w'', t') := h e w' in (r, w'', t ++ t')
        else (inl e, w', t)
    | (inr a, w', t) => (inr a, w', t)
    end.

Definition lift {A} (r : exn + A) : M A := fun w => (r, w, []).

Definition print (msg : string) (exc_info : option exn) : M unit :=
  fun w => (inr tt, w, [Print msg exc_info]).

Definition get (url verify : string) (cert : string * string) : M Response :=
  fun w =>
    let '(r, w') := requests_get url verify cert w in
    (of_raised r, w', [Get url verify cert (of_raised r)]).

Definition run (argv : list string) : M CompletedProcess :=
  fun w =>
    let '(r, w') := subprocess_run argv w in
    (of_raised r, w', [Run argv (of_raised r)]).

Notation "x <- m ;; k" := (bind m (fun x => k))
  (at level 20, m at level 99, k at level 200, only parsing).

Definition get_uw_group_members
    (gws_base_url gws_ca_cert gws_client_cert gws_client_key uw_group : string)
    : M (list string) :=
  r <- get (gws_base_url +:+ "/group/" +:+ uw_group +:+ "/member")
           gws_ca_cert (gws_client_cert, gws_client_key) ;;
  lift (members_of_response r).

Definition get_local_group_members (local_group : string) : M (list string) :=
  r <- run ["getent"; "group"; local_group] ;;
  match Py.split ":" (Py.strip (stdout r)) !! 3%nat with
  | Some field => ret (Py.split "," field)
  | None => raise IndexError
  end.

Definition add_local_group_member (local_group member : string) : M bool :=
  r <- run ["gpasswd"; "-a"; member; local_group] ;;
  if (returncode r =? 0)%Z then ret true
  else raise (PyException (stderr r)).

Definition remove_local_group_member (local_group member : string) : M bool :=
  r <- run ["gpasswd"; "-d"; member; local_group] ;;
  if (returncode r =? 0)%Z then ret true
  else raise (PyException (stderr r)).

(** [member in l] on a list *)
Definition contains (l : list string) (member : string) : bool :=
  bool_decide (member ∈ l).

(** The first inner loop of [main] (lines 110 to 119). *)
Fixpoint add_loop (local_group : string) (local_group_member_list : list string)
    (members : list string) (add_count : nat) : M nat :=
  match members with
  | [] => ret add_count
  | member :: rest =>
      if negb (contains local_group_member_list member) then
        (add_count' <-
          try_except
            (_ <- add_local_group_member local_group member ;;
             ret (add_count + 1))
            (fun e =>
               _ <- print ("ERROR: Adding " +:+ member +:+ " to "
                        +:+ local_group +:+ "?") (Some e) ;;
               ret add_count) ;;
        add_loop local_group local_group_member_list rest add_count')
      else add_loop local_group local_group_member_list rest add_count
  end.

(** The second inner loop of [main] (lines 121 to 130). *)
Fixpoint remove_loop (local_group : string) (uw_group_member_list : list string)
    (members : list string) (remove_count : nat) : M nat :=
  match members with
  | [] => ret remove_count
  | member :: rest =>
      if negb (contains uw_group_member_list member) then
        (remove_count' <-
          try_except
            (_ <- remove_local_group_member local_group member ;;
             ret (remove_count + 1))
            (fun e =>
               _ <- print ("ERROR: Removing " +:+ member +:+ " from "
                        +:+ local_group +:+ "?") (Some e) ;;
               ret remove_count) ;;
        remove_loop local_group uw_group_member_list rest remove_count')
      else remove_loop local_group uw_group_member_list rest remove_count
  end.

Definition summary (uw_group local_group : string) (add_count remove_count : nat)
    : string :=
  "UWGROUP: " +:+ uw_group +:+ " LGROUP: " +:+ local_group
    +:+ " ADD: " +:+ Py.str_of_nat add_count
    +:+ " REM: " +:+ Py.str_of_nat remove_count.

(** The [try] block of lines 100 to 104: the remote list, then the local
    one. *)
Definition fetch_lists (config : Config) (uw_group local_group : string)
    : M (list string * list string) :=
  uw_group_member_list <-
    get_uw_group_members (gws_base_url config) (gws_ca_cert config)
      (gws_client_cert config) (gws_client_key config) uw_group ;;
  local_group_member_list <- get_local_group_members local_group ;;
  ret (uw_group_member_list, local_group_member_list).

(** Lines 100 to 107: both lists, or the fatal message and [sys.exit(1)]. *)
Definition fetch (config : Config) (uw_group local_group : string)
    : M (list string * list string) :=
  try_except
    (fetch_lists config uw_group local_group)
    (fun e =>
       _ <- print "FATAL: Error retrieving group members?" (Some e) ;;
       raise (SystemExit 1)).

(** Lines 109 to 135: the comparison, the two loops and the summary. *)
Definition reconcile (uw_group local_group : string)
    (uw_group_member_list local_group_member_list : list string) : M unit :=
  counts <-
    (if bool_decide (list_to_set uw_group_member_list
                       ≠@{gset string} list_to_set local_group_member_list)
     then
       add_count <-
         add_loop local_group local_group_member_list
           uw_group_member_list 0 ;;
       remove_count <-
         remove_loop local_group uw_group_member_list
           local_group_member_list 0 ;;
       ret (add_count, remove_count)
     else ret (0, 0)) ;;
  print (summary uw_group local_group counts.1 counts.2) None.

(** The body of the loop over [group_map.items()]. *)
Definition sync_group (config : Config) (uw_group local_group : string) : M unit :=
  lists <- fetch config uw_group local_group ;;
  reconcile uw_group local_group lists.1 lists.2.

Fixpoint main_loop (config : Config) (items : list (string * string)) : M unit :=
  match items with
  | [] => ret tt
  | (uw_group, local_group) :: rest =>
      _ <- sync_group config uw_group local_group ;;
      main_loop config rest
  end.

(** [main()], once the configuration is loaded. *)
Definition main (config : Config) : M unit :=
  main_loop config (group_map config).

(** The exit status of the process that runs [main()]: 0 when [main]
    returns, the argument of [sys.exit], 1 for an uncaught exception. *)
Definition exit_status {A} (r : exn + A) : Z :=
  match r with
  | inr _ => 0
  | inl (SystemExit code) => code
  | inl _ => 1
  end.

End Program.

Arguments M World A : clear implicits.

(** ** A simulated host, for concrete runs

    The directory service answers from a table of canned outcomes per URL;
    the group database is a table from group name to members; [gpasswd -a]
    refuses a member without an account, [gpasswd -d] refuses one that is
    not in the group. *)

Module Sim.

Record host := {
  directory : list (string * (raised + Response));
  groups : list (string * list string);
  accounts : list string
}.

Fixpoint lookup {A} (k : string) (t : list (string * A)) : option A :=
  match t with
  | [] => None
  | (k', v) :: t' => if String.eqb k k' then Some v else lookup k t'
  end.

Fixpoint update (k : string) (v : list string) (t : list (string * list string))
    : list (string * list string) :=
  match t with
  | [] => []
  | (k', v') :: t' =>
      if String.eqb k k' then (k, v) :: t' else (k', v') :: update k v t'
  end.

Definition nl : string := String "010" "".

Fixpoint join (sep : string) (l : list string) : string :=
  match l with
  | [] => ""
  | [x] => x
  | x :: l' => x +:+ sep +:+ join sep l'
  end.

Definition requests_get (url verify : string) (cert : string * string)
    (w : host) : (raised + Response) * host :=
  match lookup url (directory w) with
  | Some r => (r, w)
  | None => (inl ("ConnectionError", url), w)
  end.

Definition completed (rc : Z) (out err : string) : raised + CompletedProcess :=
  inr {| returncode := rc; stdout := out; stderr := err |}.

Definition getent (g : string) (w : host) : (raised + CompletedProcess) * host :=
  match lookup g (groups w) with
  | Some ms => (completed 0 (g +:+ ":x:1001:" +:+ join "," ms +:+ nl) "", w)
  | None => (completed 2 "" "", w)
  end.

Definition gpasswd (flag member g : string) (w : host)
    : (raised + CompletedProcess) * host :=
  match lookup g (groups w) with
  | None =>
      (completed 3 "" ("gpasswd: group '" +:+ g +:+ "' does not exist" +:+ nl), w)
  | Some ms =>
      if String.eqb flag "-a" then
        if bool_decide (member ∈ accounts w) then
          (completed 0 "" "",
           {| directory := directory w;
              groups := update g (if bool_decide (member ∈ ms) then ms
                                  else ms ++ [member]) (groups w);
              accounts := accounts w |})
        else
          (completed 3 ""
             ("gpasswd: user '" +:+ member +:+ "' does not exist" +:+ nl), w)
      else
        if bool_decide (member ∈ ms) then
          (completed 0 "" "",
           {| directory := directory w;
              groups := update g (filter (λ m, m ≠ member) ms) (groups w);
              accounts := accounts w |})
        else
          (completed 3 ""
             ("gpasswd: user '" +:+ member +:+ "' is not a member of '"
                +:+ g +:+ "'" +:+ nl), w)
  end.

Definition subprocess_run (argv : list string) (w : host)
    : (raised + CompletedProcess) * host :=
  match argv with
  | [cmd; a; g] =>
      if String.eqb cmd "getent" && String.eqb a "group" then getent g w
      else (inl ("FileNotFoundError", cmd), w)
  | [cmd; flag; member; g] =>
      if String.eqb cmd "gpasswd" then gpasswd flag member g w
      else (inl ("FileNotFoundError", cmd), w)
  | _ => (inl ("FileNotFoundError", ""), w)
  end.

Definition config (gm : list (string * string)) : Config :=
  {| gws_base_url := "https://gws";
     gws_ca_cert := "ca.pem";
     gws_client_cert := "cert.pem";
     gws_client_key := "key.pem";
     group_map := gm |}.

Definition main (c : Config) (w : host) : (exn + unit) * host * list event :=
  main requests_get subprocess_run c w.

End Sim.


(** ** Reading a trace *)

(** The member argument of a [gpasswd <flag> <member> <group>] run. *)
Definition gpasswd_member (flag : string) (e : event) : option string :=
  match e with
  | Run [cmd; f; member; _] _ =>
      if String.eqb cmd "gpasswd" && String.eqb f flag then Some member else None
  | _ => None
  end.

(** The members for which [AddMember] (flag [-a]) or [RemoveMember] (flag
    [-d]) was invoked, in order, one per call. *)
Definition invoked (flag : string) (t : list event) : list string :=
  omap (gpasswd_member flag) t.

(** The tool ran and exited with code zero. *)
Definition run_ok (res : exn + CompletedProcess) : bool :=
  match res with
  | inr r => (returncode r =? 0)%Z
  | inl _ => false
  end.

(** The exception a mutation ends with, if any: what [subprocess.run]
    raised, or [Exception(r.stderr)] for a non-zero exit code. *)
Definition failure (res : exn + CompletedProcess) : option exn :=
  match res with
  | inl e => Some e
  | inr r => if (returncode r =? 0)%Z then None else Some (PyException (stderr r))
  end.

(** What a mutator call returns, given how its subprocess ended. *)
Definition outcome (res : exn + CompletedProcess) : exn + bool :=
  match failure res with
  | Some e => inl e
  | None => inr true
  end.

Definition succeeded (flag : string) (e : event) : bool :=
  match e with
  | Run _ res => bool_decide (is_Some (gpasswd_member flag e)) && run_ok res
  | _ => false
  end.

(** How many [gpasswd <flag>] runs exited with code zero. *)
Definition successes (flag : string) (t : list event) : nat :=
  length (List.filter (succeeded flag) t).

(** The lines printed, without the exception information. *)
Definition printed (t : list event) : list string :=
  omap (fun e => match e with Print msg _ => Some msg | _ => None end) t.

Definition is_Get (e : event) : bool :=
  match e with Get _ _ _ _ => true | _ => false end.

Definition is_summary (e : event) : bool :=
  match e with Print _ None => true | _ => false end.

(** The line printed before [sys.exit(1)]. *)
Definition fatal (e : exn) : event :=
  Print "FATAL: Error retrieving group members?" (Some e).

Definition adding (local_group member : string) : string :=
  "ERROR: Adding " +:+ member +:+ " to " +:+ local_group +:+ "?".

Definition removing (local_group member : string) : string :=
  "ERROR: Removing " +:+ member +:+ " from " +:+ local_group +:+ "?".

(** The trace of a loop that attempts one mutation per member of a list,
    with the number of attempts that succeeded: a run, followed by the
    error line when it failed. *)
Inductive attempts (flag : string) (msg : string -> string) (local_group : string)
    : list string -> list event -> nat -> Prop :=
| attempts_nil : attempts flag msg local_group [] [] 0
| attempts_ok member rest res t n :
    failure res = None ->
    attempts flag msg local_group rest t n ->
    attempts flag msg local_group (member :: rest)
      (Run ["gpasswd"; flag; member; local_group] res :: t) (S n)
| attempts_failed member rest res e t n :
    failure res = Some e ->
    attempts flag msg local_group rest t n ->
    attempts flag msg local_group (member :: rest)
      (Run ["gpasswd"; flag; member; local_group] res
         :: Print (msg member) (Some e) :: t) n.

(** ** The NetID shape, as the namespace defines it *)

Definition is_lower (c : ascii) : bool :=
  (97 <=? nat_of_ascii c) && (nat_of_ascii c <=? 122).

Definition is_digit (c : ascii) : bool :=
  (48 <=? nat_of_ascii c) && (nat_of_ascii c <=? 57).

Fixpoint all_chars (p : ascii -> bool) (s : string) : bool :=
  match s with
  | "" => true
  | String c s' => p c && all_chars p s'
  end.

(** A lowercase letter followed by at most seven lowercase letters or
    digits, and nothing else. *)
Definition personal_netid (s : string) : bool :=
  match s with
  | "" => false
  | String c s' =>
      is_lower c && (String.length s' <=? 7)
      && all_chars (fun c => is_lower c || is_digit c) s'
  end.

(** Whether the loop of [get_uw_group_members] keeps an entry. *)
Definition kept (tyid : string * string) : bool :=
  String.eqb tyid.1 "uwnetid" && Py.re_match netid_re tyid.2.

(** ** Group records and directory entries *)

(** How many times a character occurs in a string. *)
Fixpoint count_char (c : ascii) (s : string) : nat :=
  match s with
  | "" => 0
  | String c' s' => (if Ascii.eqb c' c then 1 else 0) + count_char c s'
  end.

(** No whitespace anywhere in the string. *)
Definition no_space (s : string) : bool :=
  all_chars (fun c => negb (Py.isspace c)) s.

(** A name that can stand in a group record: it holds no colon, no comma
    and no whitespace. *)
Definition plain (s : string) : bool :=
  (count_char ":" s =? 0) && (count_char "," s =? 0) && no_space s.

(** The line [getent group] prints for a group:
    [name:passwd:gid:member,member,...] and a newline. *)
Definition group_record (name passwd gid : string) (members : list string)
    : string :=
  name +:+ ":" +:+ passwd +:+ ":" +:+ gid +:+ ":"
    +:+ Sim.join "," members +:+ Sim.nl.

(** An entry the loop of [get_uw_group_members] gets through without
    raising: it has a [type], and when that is ["uwnetid"] it has an [id]
    that is a string. *)
Definition entry_ok (member : pyval) : bool :=
  match getitem member "type" with
  | inl _ => false
  | inr ty =>
      if eq_str ty "uwnetid" then
        match getitem member "id" with
        | inr (PStr _) => true
        | _ => false
        end
      else true
  end.

(** The id the loop appends for an entry, if any. *)
Definition entry_kept (member : pyval) : option string :=
  match getitem member "type", getitem member "id" with
  | inr ty, inr (PStr s) =>
      if eq_str ty "uwnetid" && Py.re_match netid_re s then Some s else None
  | _, _ => None
  end.

Definition is_Run (e : event) : bool :=
  match e with Run _ _ => true | _ => false end.

(** No subprocess of the trace failed: each one ran and exited with code
    zero. *)
Definition all_runs_ok (t : list event) : bool :=
  forallb (fun e => match e with Run _ res => run_ok res | _ => true end) t.

(** ** Scenarios on the simulated host *)

Module Scenario.

Definition url (uw_group : string) : string :=
  "https://gws/group/" +:+ uw_group +:+ "/member".

(** The directory knows five groups; [u_down] is not served.  Locally,
    [staff] holds alice and bob, [mirror] holds bob and alice, [empty] has
    no member, and carol has no account. *)
Definition host : Sim.host :=
  {| Sim.directory :=
       [(url "u_staff", inr (response [("uwnetid", "alice"); ("uwnetid", "carol")]));
        (url "u_mirror", inr (response [("uwnetid", "alice"); ("uwnetid", "bob")]));
        (url "u_twice", inr (response [("uwnetid", "dave"); ("uwnetid", "dave")]));
        (url "u_newline", inr (response [("uwnetid", "abc" +:+ Sim.nl)]));
        (url "u_nobody", inr (response []))];
     Sim.groups :=
       [("staff", ["alice"; "bob"]); ("mirror", ["bob"; "alice"]);
        ("empty", [])];
     Sim.accounts := ["alice"; "bob"; "dave"] |}.

(** The same host once carol has an account. *)
Definition host_with_carol : Sim.host :=
  {| Sim.directory := Sim.directory host;
     Sim.groups := Sim.groups host;
     Sim.accounts := "carol" :: Sim.accounts host |}.

End Scenario.

(** ** Properties *)

(** *** The NetID pattern *)

Lemma append_empty_r (s : string) : s +:+ "" = s.
Proof.
  induction s as [|c s IH]; [reflexivity|].
  change (String c (s +:+ "") = String c s). by rewrite IH.
Qed.

Lemma at_eol_iff (s : string) : Py.at_eol s = true <-> s = "" \/ s = Sim.nl.
Proof.
  destruct s as [|c [|c' s]]; cbn.
  - tauto.
  - destruct (Ascii.eqb_spec c "010"%char) as [->|Hc].
    + split; [intros _; by right | done].
    + split; [done | intros [|[= ?]]; done].
  - split; [discriminate | intros [|]; discriminate].
Qed.

(** Bounded repetition from a lower bound of zero: some prefix of at most
    [hi] characters of the class, after which the rest of the pattern
    matches. *)
Lemma rep_iff cls hi (k : bool -> string -> bool) (s : string) :
  Py.rep cls 0 hi k false s = true
  <-> exists pre suf,
        s = pre +:+ suf /\ String.length pre <= hi
        /\ all_chars (Py.in_class cls) pre = true /\ k false suf = true.
Proof.
  revert s. induction hi as [|hi IH]; intros s; cbn [Py.rep Nat.eqb andb pred].
  - split.
    + intros Hk. by exists "", s.
    + intros (pre & suf & -> & Hlen & _ & Hk).
      destruct pre; [exact Hk | cbn in Hlen; lia].
  - rewrite orb_true_iff. split.
    + intros [Hstep|Hk]; [|exists "", s; repeat split; [cbn; lia | done]].
      destruct s as [|c s]; [discriminate|].
      apply andb_true_iff in Hstep as [Hc Hrest].
      apply IH in Hrest as (pre & suf & -> & Hlen & Hall & Hk).
      exists (String c pre), suf.
      split; [reflexivity|]. split; [cbn; lia|]. split; [|done].
      cbn [all_chars]. by rewrite Hc, Hall.
    + intros (pre & suf & -> & Hlen & Hall & Hk).
      destruct pre as [|c pre]; [by right|]. left.
      change (String c pre +:+ suf) with (String c (pre +:+ suf)).
      cbn [all_chars String.length] in Hall, Hlen.
      apply andb_true_iff in Hall as [Hc Hall]. rewrite Hc. cbn [andb].
      apply IH. exists pre, suf. repeat split; [lia | done | done].
Qed.

Lemma in_class_lower (c : ascii) : Py.in_class [Py.Range "a" "z"] c = is_lower c.
Proof. cbn. by rewrite orb_false_r. Qed.

Lemma in_class_lower_digit (c : ascii) :
  Py.in_class [Py.Range "a" "z"; Py.Range "0" "9"] c = is_lower c || is_digit c.
Proof. cbn. by rewrite orb_false_r. Qed.

Lemma all_chars_ext (p q : ascii -> bool) (s : string) :
  (forall c, p c = q c) -> all_chars p s = all_chars q s.
Proof. intros Hpq. induction s as [|c s IH]; cbn; [done | by rewrite Hpq, IH]. Qed.

(** What [re.match("^[a-z][a-z0-9]{0,7}$", s)] accepts: a personal NetID,
    or a personal NetID followed by one newline. *)
Lemma netid_re_accepts (s : string) :
  Py.re_match netid_re s = true
  <-> personal_netid s = true
      \/ exists body, s = body +:+ Sim.nl /\ personal_netid body = true.
Proof.
  unfold Py.re_match, netid_re. cbn [Py.match_here andb].
  destruct s as [|c s].
  - split; [discriminate|]. intros [|(body & Hs & Hb)]; [discriminate|].
    destruct body; [discriminate | discriminate].
  - rewrite in_class_lower, andb_true_iff, rep_iff. cbn [personal_netid].
    split.
    + intros (Hc & pre & suf & -> & Hlen & Hall & Heol).
      rewrite (all_chars_ext _ _ _ in_class_lower_digit) in Hall.
      rewrite andb_true_r in Heol. apply at_eol_iff in Heol as [->| ->].
      * left. rewrite append_empty_r, Hc, Hall.
        by apply Nat.leb_le in Hlen as ->.
      * right. exists (String c pre). split; [reflexivity|]. cbn.
        rewrite Hc, Hall. by apply Nat.leb_le in Hlen as ->.
    + intros [Hp|(body & Hs & Hp)].
      * apply andb_true_iff in Hp as [[Hc Hlen]%andb_true_iff Hall].
        split; [done|]. exists s, "". rewrite append_empty_r.
        rewrite (all_chars_ext _ _ _ in_class_lower_digit).
        apply Nat.leb_le in Hlen. done.
      * destruct body as [|c' body]; [discriminate|].
        change (String c s = String c' (body +:+ Sim.nl)) in Hs.
        injection Hs as -> ->. cbn in Hp.
        apply andb_true_iff in Hp as [[Hc Hlen]%andb_true_iff Hall].
        split; [done|]. exists body, Sim.nl.
        rewrite (all_chars_ext _ _ _ in_class_lower_digit).
        apply Nat.leb_le in Hlen. done.
Qed.

(** *** The fetcher *)

Lemma of_raised_Exception {A} (r : raised + A) e :
  of_raised r = inl e -> is_Exception e = true.
Proof. destruct r as [[name detail]|a]; cbn; [intros [= <-]; reflexivity | discriminate]. Qed.

Lemma ebind_inr {A B} (m : exn + A) (k : A -> exn + B) (b : B) :
  ebind m k = inr b -> exists a, m = inr a /\ k a = inr b.
Proof. destruct m as [e|a]; cbn; [discriminate | eauto]. Qed.

Lemma ebind_inl {A B} (m : exn + A) (k : A -> exn + B) (e : exn) :
  ebind m k = inl e -> m = inl e \/ exists a, m = inr a /\ k a = inl e.
Proof. destruct m as [e'|a]; cbn; [intros [= ->]; by left | eauto]. Qed.

Lemma getitem_Exception v k e : getitem v k = inl e -> is_Exception e = true.
Proof.
  destruct v; cbn; try (intros [= <-]; reflexivity).
  destruct (assoc k items); [discriminate | intros [= <-]; reflexivity].
Qed.

Lemma iter_Exception v e : iter v = inl e -> is_Exception e = true.
Proof. destruct v; cbn; try discriminate; intros [= <-]; reflexivity. Qed.

(** On well-formed entries the loop keeps, in order and one for one, the
    ids of the entries of type [uwnetid] that the pattern accepts. *)
Lemma members_loop_entries (es : list (string * string)) (acc : list string) :
  members_loop (map entry es) acc = inr (acc ++ map snd (List.filter kept es)).
Proof.
  revert acc. induction es as [|[ty id] es IH]; intros acc.
  - cbn. by rewrite app_nil_r.
  - cbn [map members_loop List.filter]. unfold kept at 1.
    change (getitem (entry (ty, id)) "type") with (@inr exn _ (PStr ty)).
    cbn [ebind eq_str fst snd].
    destruct (String.eqb ty "uwnetid"); cbn [andb]; [|apply IH].
    change (getitem (entry (ty, id)) "id") with (@inr exn _ (PStr id)).
    cbn [ebind].
    destruct (Py.re_match netid_re id); [|apply IH].
    rewrite IH. cbn [map snd]. by rewrite <- app_assoc.
Qed.

(** Whatever the response holds, every id the loop appends is accepted by
    the pattern. *)
Lemma members_loop_accepted data acc l :
  members_loop data acc = inr l ->
  Forall (λ s, Py.re_match netid_re s = true) acc ->
  Forall (λ s, Py.re_match netid_re s = true) l.
Proof.
  revert acc. induction data as [|member rest IH]; intros acc; cbn [members_loop].
  - by intros [= ->].
  - intros Hloop Hacc.
    apply ebind_inr in Hloop as (ty & _ & Hloop).
    destruct (eq_str ty "uwnetid"); [|by eapply IH].
    apply ebind_inr in Hloop as (id & _ & Hloop).
    destruct id as [| | |s| |]; try discriminate.
    destruct (Py.re_match netid_re s) eqn:Hs; [|by eapply IH].
    eapply IH; [exact Hloop|]. apply Forall_app. split; [done|].
    by constructor.
Qed.

Lemma members_loop_Exception data acc e :
  members_loop data acc = inl e -> is_Exception e = true.
Proof.
  revert acc. induction data as [|member rest IH]; intros acc; cbn [members_loop].
  - discriminate.
  - intros Hloop.
    apply ebind_inl in Hloop as [Hty|(ty & _ & Hloop)];
      [by eapply getitem_Exception|].
    destruct (eq_str ty "uwnetid"); [|by eapply IH].
    apply ebind_inl in Hloop as [Hid|(id & _ & Hloop)];
      [by eapply getitem_Exception|].
    destruct id as [| | |s| |]; try (injection Hloop as <-; reflexivity).
    destruct (Py.re_match netid_re s); by eapply IH.
Qed.

Lemma members_of_response_Exception r e :
  members_of_response r = inl e -> is_Exception e = true.
Proof.
  unfold members_of_response. intros H.
  apply ebind_inl in H as [H|(doc & _ & H)]; [by eapply of_raised_Exception|].
  apply ebind_inl in H as [H|(data & _ & H)]; [by eapply getitem_Exception|].
  apply ebind_inl in H as [H|(items & _ & H)]; [by eapply iter_Exception|].
  by eapply members_loop_Exception.
Qed.

(** The empty string is never a remote member. *)
Lemma members_of_response_nonempty r l :
  members_of_response r = inr l -> "" ∉ l.
Proof.
  unfold members_of_response. intros H.
  apply ebind_inr in H as (doc & _ & H).
  apply ebind_inr in H as (data & _ & H).
  apply ebind_inr in H as (items & _ & H).
  apply members_loop_accepted in H; [|constructor].
  intros Hin. rewrite Forall_forall in H. by apply H in Hin.
Qed.

(** *** Traces of mutation attempts *)

Section Attempts.

Variables (flag : string) (msg : string -> string) (local_group : string).

Lemma gpasswd_member_run (f member : string) res :
  gpasswd_member f (Run ["gpasswd"; flag; member; local_group] res)
  = if String.eqb flag f then Some member else None.
Proof. reflexivity. Qed.

Lemma failure_run_ok res : failure res = None <-> run_ok res = true.
Proof.
  destruct res as [e|r]; simpl; [split; discriminate|].
  destruct (returncode r =? 0)%Z; split; congruence.
Qed.

Lemma attempts_invoked ms t n :
  attempts flag msg local_group ms t n -> invoked flag t = ms.
Proof.
  induction 1 as [|m rest res t n Hres _ IH|m rest res e t n Hres _ IH];
    [reflexivity| |];
    unfold invoked in *; cbn [omap list_omap];
    rewrite gpasswd_member_run, String.eqb_refl; cbn; by rewrite IH.
Qed.

Lemma attempts_invoked_other f ms t n :
  String.eqb flag f = false ->
  attempts flag msg local_group ms t n -> invoked f t = [].
Proof.
  intros Hf.
  induction 1 as [|m rest res t n Hres _ IH|m rest res e t n Hres _ IH];
    [reflexivity| |];
    unfold invoked in *; cbn [omap list_omap];
    rewrite gpasswd_member_run, Hf; cbn; by rewrite IH.
Qed.

Lemma succeeded_run (f member : string) res :
  succeeded f (Run ["gpasswd"; flag; member; local_group] res)
  = String.eqb flag f && run_ok res.
Proof.
  unfold succeeded. rewrite gpasswd_member_run.
  destruct (String.eqb flag f); reflexivity.
Qed.

Lemma attempts_successes ms t n :
  attempts flag msg local_group ms t n -> successes flag t = n.
Proof.
  induction 1 as [|m rest res t n Hres _ IH|m rest res e t n Hres _ IH];
    [reflexivity| |];
    unfold successes in *; cbn [List.filter];
    rewrite succeeded_run, String.eqb_refl; cbn.
  - apply failure_run_ok in Hres. rewrite Hres. cbn. by rewrite IH.
  - destruct (run_ok res) eqn:Hok.
    + apply failure_run_ok in Hok. congruence.
    + exact IH.
Qed.

Lemma attempts_successes_other f ms t n :
  String.eqb flag f = false ->
  attempts flag msg local_group ms t n -> successes f t = 0.
Proof.
  intros Hf.
  induction 1 as [|m rest res t n Hres _ IH|m rest res e t n Hres _ IH];
    [reflexivity| |];
    unfold successes in *; cbn [List.filter];
    rewrite succeeded_run, Hf; cbn; exact IH.
Qed.

Lemma attempts_no_Get ms t n :
  attempts flag msg local_group ms t n -> List.filter is_Get t = [].
Proof. induction 1; cbn; auto. Qed.

Lemma attempts_no_summary ms t n :
  attempts flag msg local_group ms t n -> List.filter is_summary t = [].
Proof. induction 1; cbn; auto. Qed.

(** A failed run is directly followed by the error line for its member. *)
Lemma attempts_failure_logged ms t n :
  attempts flag msg local_group ms t n ->
  forall (i : nat) (member g : string) res e,
    t !! i = Some (Run ["gpasswd"; flag; member; g] res) ->
    failure res = Some e ->
    t !! S i = Some (Print (msg member) (Some e)).
Proof.
  induction 1 as [|m rest res0 t n Hres _ IH|m rest res0 e0 t n Hres _ IH];
    intros i member g res e Hi Hf.
  - by rewrite lookup_nil in Hi.
  - destruct i as [|i]; cbn in Hi |- *.
    + injection Hi as -> -> ->. congruence.
    + eauto.
  - destruct i as [|[|i]]; cbn in Hi |- *.
    + injection Hi as -> -> ->. congruence.
    + discriminate.
    + eauto.
Qed.

End Attempts.

(** *** The mutator and the two loops *)

Section Driver.

#[local] Set Default Proof Using "Type".

Context {World : Type}.
Variable requests_get :
  string -> string -> string * string -> World -> (raised + Response) * World.
Variable subprocess_run :
  list string -> World -> (raised + CompletedProcess) * World.

Lemma failure_Exception (r : raised + CompletedProcess) e :
  failure (of_raised r) = Some e -> is_Exception e = true.
Proof.
  destruct r as [[name detail]|cp]; cbn.
  - intros [= <-]. reflexivity.
  - destruct (returncode cp =? 0)%Z; [discriminate | intros [= <-]; reflexivity].
Qed.

Lemma add_local_group_member_run local_group member w :
  add_local_group_member subprocess_run local_group member w
  = let '(r, w') := subprocess_run ["gpasswd"; "-a"; member; local_group] w in
    (outcome (of_raised r), w',
     [Run ["gpasswd"; "-a"; member; local_group] (of_raised r)]).
Proof.
  unfold add_local_group_member, bind, run, outcome.
  destruct (subprocess_run _ w) as [[[name detail]|cp] w']; cbn; [reflexivity|].
  destruct (returncode cp =? 0)%Z; reflexivity.
Qed.

Lemma remove_local_group_member_run local_group member w :
  remove_local_group_member subprocess_run local_group member w
  = let '(r, w') := subprocess_run ["gpasswd"; "-d"; member; local_group] w in
    (outcome (of_raised r), w',
     [Run ["gpasswd"; "-d"; member; local_group] (of_raised r)]).
Proof.
  unfold remove_local_group_member, bind, run, outcome.
  destruct (subprocess_run _ w) as [[[name detail]|cp] w']; cbn; [reflexivity|].
  destruct (returncode cp =? 0)%Z; reflexivity.
Qed.

Lemma not_contains (l : list string) (member : string) :
  negb (contains l member) = bool_decide (member ∉ l).
Proof. unfold contains. by rewrite bool_decide_not. Qed.

Lemma add_loop_attempts local_group local_list members add_count w :
  exists w' t n,
    add_loop subprocess_run local_group local_list members add_count w
    = (inr (add_count + n), w', t)
    /\ attempts "-a" (adding local_group) local_group
         (filter (λ m, m ∉ local_list) members) t n.
Proof.
  revert add_count w.
  induction members as [|member rest IH]; intros add_count w; cbn [add_loop].
  - exists w, [], 0. split; [by rewrite Nat.add_0_r | constructor].
  - rewrite not_contains, filter_cons.
    destruct (decide (member ∉ local_list)) as [Hm|Hm].
    + rewrite bool_decide_eq_true_2 by done.
      unfold bind at 1, try_except, bind at 1.
      rewrite add_local_group_member_run.
      destruct (subprocess_run _ w) as [r w1].
      unfold outcome. destruct (failure (of_raised r)) as [e|] eqn:Hf.
      * rewrite (failure_Exception r e Hf). cbn.
        destruct (IH add_count w1) as (w' & t & n & -> & Hat).
        exists w', (Run ["gpasswd"; "-a"; member; local_group] (of_raised r)
                      :: Print (adding local_group member) (Some e) :: t), n.
        split; [reflexivity | by eapply attempts_failed].
      * cbn.
        destruct (IH (add_count + 1) w1) as (w' & t & n & -> & Hat).
        exists w', (Run ["gpasswd"; "-a"; member; local_group] (of_raised r) :: t),
          (S n).
        split; [f_equal; f_equal; f_equal; lia | by eapply attempts_ok].
    + rewrite bool_decide_eq_false_2 by done. apply IH.
Qed.

Lemma remove_loop_attempts local_group uw_list members remove_count w :
  exists w' t n,
    remove_loop subprocess_run local_group uw_list members remove_count w
    = (inr (remove_count + n), w', t)
    /\ attempts "-d" (removing local_group) local_group
         (filter (λ m, m ∉ uw_list) members) t n.
Proof.
  revert remove_count w.
  induction members as [|member rest IH]; intros remove_count w; cbn [remove_loop].
  - exists w, [], 0. split; [by rewrite Nat.add_0_r | constructor].
  - rewrite not_contains, filter_cons.
    destruct (decide (member ∉ uw_list)) as [Hm|Hm].
    + rewrite bool_decide_eq_true_2 by done.
      unfold bind at 1, try_except, bind at 1.
      rewrite remove_local_group_member_run.
      destruct (subprocess_run _ w) as [r w1].
      unfold outcome. destruct (failure (of_raised r)) as [e|] eqn:Hf.
      * rewrite (failure_Exception r e Hf). cbn.
        destruct (IH remove_count w1) as (w' & t & n & -> & Hat).
        exists w', (Run ["gpasswd"; "-d"; member; local_group] (of_raised r)
                      :: Print (removing local_group member) (Some e) :: t), n.
        split; [reflexivity | by eapply attempts_failed].
      * cbn.
        destruct (IH (remove_count + 1) w1) as (w' & t & n & -> & Hat).
        exists w', (Run ["gpasswd"; "-d"; member; local_group] (of_raised r) :: t),
          (S n).
        split; [f_equal; f_equal; f_equal; lia | by eapply attempts_ok].
    + rewrite bool_decide_eq_false_2 by done. apply IH.
Qed.

Lemma invoked_app flag (t1 t2 : list event) :
  invoked flag (t1 ++ t2) = invoked flag t1 ++ invoked flag t2.
Proof. apply omap_app. Qed.

Lemma successes_app flag (t1 t2 : list event) :
  successes flag (t1 ++ t2) = successes flag t1 + successes flag t2.
Proof. unfold successes. by rewrite List.filter_app, length_app. Qed.

Lemma same_set_nothing_missing (l1 l2 : list string) :
  list_to_set l1 =@{gset string} list_to_set l2 ->
  filter (λ m, m ∉ l2) l1 = [].
Proof.
  intros Heq.
  destruct (filter (λ m, m ∉ l2) l1) as [|m rest] eqn:Hf; [reflexivity|].
  assert (Hm : m ∈ filter (λ m, m ∉ l2) l1) by (rewrite Hf; left).
  apply list_elem_of_filter in Hm as [Hn Hm]. destruct Hn.
  apply (elem_of_list_to_set (C:=gset string)). rewrite <- Heq.
  by apply elem_of_list_to_set.
Qed.

(** The trace of [reconcile]: the attempts to add, the attempts to remove,
    the summary; it never raises. *)
Lemma reconcile_attempts uw_group local_group uw_list local_list w :
  exists w' ta tr a r,
    reconcile subprocess_run uw_group local_group uw_list local_list w
    = (inr tt, w', ta ++ tr ++ [Print (summary uw_group local_group a r) None])
    /\ attempts "-a" (adding local_group) local_group
         (filter (λ m, m ∉ local_list) uw_list) ta a
    /\ attempts "-d" (removing local_group) local_group
         (filter (λ m, m ∉ uw_list) local_list) tr r.
Proof.
  unfold reconcile. case_bool_decide as Hne.
  - destruct (add_loop_attempts local_group local_list uw_list 0 w)
      as (w1 & ta & a & Ha & Hat).
    destruct (remove_loop_attempts local_group uw_list local_list 0 w1)
      as (w2 & tr & r & Hr & Hrt).
    exists w2, ta, tr, a, r. split; [|done].
    unfold bind, print. rewrite Ha, Hr. cbn.
    by rewrite app_nil_r, <- app_assoc.
  - exists w, [], [], 0, 0. split; [reflexivity|].
    rewrite (same_set_nothing_missing _ _ Hne).
    rewrite (same_set_nothing_missing local_list uw_list) by done.
    split; constructor.
Qed.

Lemma attempts_flag flag msg local_group ms t n :
  attempts flag msg local_group ms t n ->
  forall (i : nat) (cmd f member g : string) res,
    t !! i = Some (Run [cmd; f; member; g] res) -> f = flag.
Proof.
  induction 1 as [|m rest res0 t n Hres _ IH|m rest res0 e0 t n Hres _ IH];
    intros i cmd f member g res Hi.
  - by rewrite lookup_nil in Hi.
  - destruct i as [|i]; cbn in Hi; [by injection Hi as _ -> _ _ _ | eauto].
  - destruct i as [|[|i]]; cbn in Hi;
      [by injection Hi as _ -> _ _ _ | discriminate | eauto].
Qed.

(** *** The membership delta *)

(** C6. For every pair of member lists, the members for which AddMember is
    invoked (ToAdd) and those for which RemoveMember is invoked (ToRemove)
    are disjoint, and (localSet ∪ ToAdd) − ToRemove = remoteSet.  The calls
    issued do not depend on how earlier calls ended, so this holds whether
    or not a mutation fails. *)
Theorem reconcile_delta uw_group local_group uw_list local_list w :
  let t := (reconcile subprocess_run uw_group local_group uw_list local_list w).2 in
  let ToAdd : gset string := list_to_set (invoked "-a" t) in
  let ToRemove : gset string := list_to_set (invoked "-d" t) in
  ToAdd ∩ ToRemove = ∅
  /\ (list_to_set local_list ∪ ToAdd) ∖ ToRemove = list_to_set uw_list.
Proof.
  destruct (reconcile_attempts uw_group local_group uw_list local_list w)
    as (w' & ta & tr & a & r & -> & Ha & Hr).
  cbn [snd]. rewrite !invoked_app.
  rewrite (attempts_invoked _ _ _ _ _ _ Ha).
  rewrite (attempts_invoked_other "-d" _ _ "-a" _ _ _ eq_refl Hr).
  rewrite (attempts_invoked_other "-a" _ _ "-d" _ _ _ eq_refl Ha).
  rewrite (attempts_invoked _ _ _ _ _ _ Hr).
  cbn [invoked omap list_omap gpasswd_member]. rewrite !app_nil_r. cbn [app].
  split.
  - apply set_eq. intros x.
    rewrite elem_of_intersection, !elem_of_list_to_set, !list_elem_of_filter.
    split; [intros [[Hn _] [_ Hl]]; by destruct Hn | intros []%elem_of_empty].
  - apply set_eq. intros x.
    rewrite elem_of_difference, elem_of_union, !elem_of_list_to_set,
      !list_elem_of_filter.
    split.
    + intros [[Hl|[_ Hu]] Hn]; [|done].
      destruct (decide (x ∈ uw_list)) as [Hu|Hu]; [done|]. by destruct Hn.
    + intros Hu. split; [|intros [Hn _]; by apply Hn].
      destruct (decide (x ∈ local_list)); [by left | by right].
Qed.

(** *** A failed mutation is logged and skipped *)

(** C7. Whatever the outcome of each mutation: every member of the remote
    list missing from the local list gets its AddMember call and every
    member of the local list missing from the remote list its RemoveMember
    call (a failure stops nothing); a failed call is directly followed by
    the error line naming the member and the group, with the exception; and
    the last line reads [UWGROUP: <remote> LGROUP: <local> ADD: <a> REM: <r>]
    where [<a>] and [<r>] are, in decimal, the numbers of [gpasswd -a] and
    [gpasswd -d] calls that exited with code zero. *)
Theorem mutation_failure_is_local uw_group local_group uw_list local_list w :
  exists w' t,
    reconcile subprocess_run uw_group local_group uw_list local_list w
    = (inr tt, w',
       t ++ [Print ("UWGROUP: " +:+ uw_group +:+ " LGROUP: " +:+ local_group
                      +:+ " ADD: "
                      +:+ NilEmpty.string_of_uint (Nat.to_uint (successes "-a" t))
                      +:+ " REM: "
                      +:+ NilEmpty.string_of_uint (Nat.to_uint (successes "-d" t)))
               None])
    /\ invoked "-a" t = filter (λ m, m ∉ local_list) uw_list
    /\ invoked "-d" t = filter (λ m, m ∉ uw_list) local_list
    /\ (forall (i : nat) member res e,
          t !! i = Some (Run ["gpasswd"; "-a"; member; local_group] res) ->
          failure res = Some e ->
          t !! S i
          = Some (Print ("ERROR: Adding " +:+ member +:+ " to "
                           +:+ local_group +:+ "?") (Some e)))
    /\ (forall (i : nat) member res e,
          t !! i = Some (Run ["gpasswd"; "-d"; member; local_group] res) ->
          failure res = Some e ->
          t !! S i
          = Some (Print ("ERROR: Removing " +:+ member +:+ " from "
                           +:+ local_group +:+ "?") (Some e))).
Proof.
  destruct (reconcile_attempts uw_group local_group uw_list local_list w)
    as (w' & ta & tr & a & r & Heq & Ha & Hr).
  exists w', (ta ++ tr).
  rewrite !successes_app, !invoked_app.
  rewrite (attempts_successes _ _ _ _ _ _ Ha).
  rewrite (attempts_successes_other "-d" _ _ "-a" _ _ _ eq_refl Hr).
  rewrite (attempts_successes_other "-a" _ _ "-d" _ _ _ eq_refl Ha).
  rewrite (attempts_successes _ _ _ _ _ _ Hr).
  rewrite (attempts_invoked _ _ _ _ _ _ Ha).
  rewrite (attempts_invoked_other "-d" _ _ "-a" _ _ _ eq_refl Hr).
  rewrite (attempts_invoked_other "-a" _ _ "-d" _ _ _ eq_refl Ha).
  rewrite (attempts_invoked _ _ _ _ _ _ Hr).
  rewrite Nat.add_0_r, app_nil_r. cbn [Nat.add app].
  split; [by rewrite Heq, <- app_assoc|].
  split; [reflexivity|]. split; [reflexivity|].
  split; intros i member res e Hi Hf.
  - destruct (decide (i < length ta)) as [Hlt|Hge].
    + rewrite lookup_app_l in Hi by done.
      pose proof (attempts_failure_logged _ _ _ _ _ _ Ha _ _ _ _ _ Hi Hf) as Hn.
      apply lookup_app_l_Some. exact Hn.
    + rewrite lookup_app_r in Hi by lia.
      by pose proof (attempts_flag _ _ _ _ _ _ Hr _ _ _ _ _ _ Hi).
  - destruct (decide (i < length ta)) as [Hlt|Hge].
    + rewrite lookup_app_l in Hi by done.
      by pose proof (attempts_flag _ _ _ _ _ _ Ha _ _ _ _ _ _ Hi).
    + rewrite lookup_app_r in Hi by lia.
      pose proof (attempts_failure_logged _ _ _ _ _ _ Hr _ _ _ _ _ Hi Hf) as Hn.
      rewrite lookup_app_r by lia.
      replace (S i - length ta) with (S (i - length ta)) by lia. exact Hn.
Qed.

(** *** Nothing to do *)

(** C8. When the remote and the local member sets are equal, the driver
    runs no subprocess at all (no AddMember, no RemoveMember: the world is
    left as it was) and prints the summary line with ADD: 0 REM: 0. *)
Theorem equal_sets_no_mutation uw_group local_group uw_list local_list w :
  list_to_set uw_list =@{gset string} list_to_set local_list ->
  reconcile subprocess_run uw_group local_group uw_list local_list w
  = (inr tt, w,
     [Print ("UWGROUP: " +:+ uw_group +:+ " LGROUP: " +:+ local_group
               +:+ " ADD: 0 REM: 0") None]).
Proof.
  intros Heq. unfold reconcile.
  rewrite bool_decide_eq_false_2 by (intros Hne; by apply Hne).
  reflexivity.
Qed.

(** *** The mutator *)

(** C9. When the membership tool ran and ended with return code [rc],
    AddMember and RemoveMember return [True] exactly when [rc] is zero, and
    for a non-zero [rc] they raise [Exception] carrying the tool's standard
    error text. *)
Theorem mutator_exit_code local_group member w :
  (forall r w',
     subprocess_run ["gpasswd"; "-a"; member; local_group] w = (inr r, w') ->
     let res := (add_local_group_member subprocess_run local_group member w).1.1 in
     (res = inr true <-> returncode r = 0%Z)
     /\ (returncode r <> 0%Z -> res = inl (PyException (stderr r))))
  /\ (forall r w',
        subprocess_run ["gpasswd"; "-d"; member; local_group] w = (inr r, w') ->
        let res :=
          (remove_local_group_member subprocess_run local_group member w).1.1 in
        (res = inr true <-> returncode r = 0%Z)
        /\ (returncode r <> 0%Z -> res = inl (PyException (stderr r)))).
Proof.
  split; intros r w' Hrun; cbn zeta.
  - rewrite add_local_group_member_run, Hrun. cbn. unfold outcome. cbn.
    destruct (Z.eqb_spec (returncode r) 0) as [Hz|Hz]; cbn.
    + split; [split; [intros _; exact Hz | reflexivity] | intros Hn; by destruct Hn].
    + split; [split; [discriminate | intros; by destruct Hz] | reflexivity].
  - rewrite remove_local_group_member_run, Hrun. cbn. unfold outcome. cbn.
    destruct (Z.eqb_spec (returncode r) 0) as [Hz|Hz]; cbn.
    + split; [split; [intros _; exact Hz | reflexivity] | intros Hn; by destruct Hn].
    + split; [split; [discriminate | intros; by destruct Hz] | reflexivity].
Qed.

(** *** Fetching *)

#[local] Abbreviation fetch_lists' := (fetch_lists requests_get subprocess_run).
#[local] Abbreviation fetch' := (fetch requests_get subprocess_run).
#[local] Abbreviation sync_group' := (sync_group requests_get subprocess_run).
#[local] Abbreviation main_loop' := (main_loop requests_get subprocess_run).
#[local] Abbreviation main' := (main requests_get subprocess_run).

(** The [try] block runs no [gpasswd], prints nothing, and raises only
    exceptions derived from [Exception]. *)
Lemma fetch_lists_quiet config uw_group local_group w r w' t :
  fetch_lists' config uw_group local_group w = (r, w', t) ->
  invoked "-a" t = [] /\ invoked "-d" t = []
  /\ List.filter is_summary t = []
  /\ (forall e, r = inl e -> is_Exception e = true).
Proof.
  unfold fetch_lists, get_uw_group_members, get_local_group_members,
    bind, get, run, lift.
  destruct (requests_get _ _ _ w) as [[[name detail]|resp] w1]; cbn.
  - intros [= <- <- <-]. repeat split. intros e [= <-]. reflexivity.
  - destruct (members_of_response resp) as [e|uw_list] eqn:Hm; cbn.
    + intros [= <- <- <-]. repeat split. intros e' [= <-].
      by eapply members_of_response_Exception.
    + destruct (subprocess_run _ w1) as [[[name detail]|cp] w2]; cbn.
      * intros [= <- <- <-]. repeat split. intros e [= <-]. reflexivity.
      * destruct (Py.split ":" (Py.strip (stdout cp)) !! 3%nat); cbn;
          intros [= <- <- <-]; repeat split; try discriminate.
        intros e [= <-]. reflexivity.
Qed.

Lemma fetch_failed config uw_group local_group w e w' t :
  fetch_lists' config uw_group local_group w = (inl e, w', t) ->
  fetch' config uw_group local_group w = (inl (SystemExit 1), w', t ++ [fatal e]).
Proof.
  intros Hf. unfold fetch, try_except. rewrite Hf.
  destruct (fetch_lists_quiet _ _ _ _ _ _ _ Hf) as (_ & _ & _ & Hex).
  by rewrite (Hex e eq_refl).
Qed.

Lemma fetch_fetched config uw_group local_group w lists w' t :
  fetch_lists' config uw_group local_group w = (inr lists, w', t) ->
  fetch' config uw_group local_group w = (inr lists, w', t).
Proof. intros Hf. unfold fetch, try_except. by rewrite Hf. Qed.

Lemma sync_group_failed config uw_group local_group w e w' t :
  fetch_lists' config uw_group local_group w = (inl e, w', t) ->
  sync_group' config uw_group local_group w
  = (inl (SystemExit 1), w', t ++ [fatal e]).
Proof. intros Hf. unfold sync_group, bind. by rewrite (fetch_failed _ _ _ _ _ _ _ Hf). Qed.

Lemma bind_assoc {A B C} (m : M World A) (f : A -> M World B)
    (g : B -> M World C) w :
  bind (bind m f) g w = bind m (fun a => bind (f a) g) w.
Proof.
  unfold bind. destruct (m w) as [[[e|a] w1] t1]; [reflexivity|].
  destruct (f a w1) as [[[e|b] w2] t2]; [reflexivity|].
  destruct (g b w2) as [[r w3] t3]. by rewrite app_assoc.
Qed.

Lemma bind_ext {A B} (m : M World A) (f g : A -> M World B) w :
  (forall a w', f a w' = g a w') -> bind m f w = bind m g w.
Proof.
  intros Hfg. unfold bind. destruct (m w) as [[[e|a] w1] t1]; [reflexivity|].
  by rewrite Hfg.
Qed.

Lemma main_loop_app config (l1 l2 : list (string * string)) w :
  main_loop' config (l1 ++ l2) w
  = bind (main_loop' config l1) (fun _ => main_loop' config l2) w.
Proof.
  revert w. induction l1 as [|[uw_group local_group] l1 IH]; intros w.
  - cbn. unfold bind, ret. destruct (main_loop' config l2 w) as [[r w'] t].
    reflexivity.
  - cbn [app main_loop]. rewrite bind_assoc. apply bind_ext. intros _ w'.
    apply IH.
Qed.

(** A mapping whose lists were fetched is processed to its summary line. *)
Lemma sync_group_fetched config uw_group local_group w lists w1 t1 :
  fetch_lists' config uw_group local_group w = (inr lists, w1, t1) ->
  exists w' t,
    sync_group' config uw_group local_group w = (inr tt, w', t)
    /\ length (List.filter is_summary t) = 1.
Proof.
  intros Hf. unfold sync_group, bind. rewrite (fetch_fetched _ _ _ _ _ _ _ Hf).
  destruct (reconcile_attempts uw_group local_group lists.1 lists.2 w1)
    as (w' & ta & tr & a & r & -> & Ha & Hr).
  eexists _, _. split; [reflexivity|].
  destruct (fetch_lists_quiet _ _ _ _ _ _ _ Hf) as (_ & _ & Hq & _).
  rewrite !List.filter_app, Hq.
  rewrite (attempts_no_summary _ _ _ _ _ _ Ha),
    (attempts_no_summary _ _ _ _ _ _ Hr).
  reflexivity.
Qed.

(** C2, as the code has it. When fetching the remote list or reading the
    local list fails for a mapping, the driver prints the FATAL line with
    the exception, has run no AddMember and no RemoveMember for that
    mapping, and leaves through [sys.exit(1)]: the mappings after it are
    not processed. *)
Theorem fetch_failure_ends_run config uw_group local_group rest w e w' t :
  fetch_lists' config uw_group local_group w = (inl e, w', t) ->
  main_loop' config ((uw_group, local_group) :: rest) w
  = (inl (SystemExit 1), w',
     t ++ [Print "FATAL: Error retrieving group members?" (Some e)])
  /\ invoked "-a" t = [] /\ invoked "-d" t = [].
Proof.
  intros Hf. split.
  - cbn [main_loop]. unfold bind.
    by rewrite (sync_group_failed _ _ _ _ _ _ _ Hf).
  - destruct (fetch_lists_quiet _ _ _ _ _ _ _ Hf) as (Ha & Hd & _). done.
Qed.

(** When every fetch succeeds, [main_loop] returns, with one summary line
    per mapping. *)
Lemma main_loop_returns config items w :
  (forall pre uw_group local_group post w1 t1 e w2 t2,
     items = pre ++ (uw_group, local_group) :: post ->
     main_loop' config pre w = (inr tt, w1, t1) ->
     fetch_lists' config uw_group local_group w1 <> (inl e, w2, t2)) ->
  exists w' t,
    main_loop' config items w = (inr tt, w', t)
    /\ length (List.filter is_summary t) = length items.
Proof.
  revert w. induction items as [|[uw_group local_group] items IH]; intros w Hok.
  - exists w, []. done.
  - destruct (fetch_lists' config uw_group local_group w)
      as [[[e|lists] w1] t1] eqn:Hf.
    + destruct (Hok [] uw_group local_group items w [] e w1 t1); done.
    + destruct (sync_group_fetched _ _ _ _ _ _ _ Hf) as (w2 & t2 & Hs & Hn).
      destruct (IH w2) as (w3 & t3 & Hrest & Hlen).
      * intros pre ug lg post w4 t4 e w5 t5 -> Hpre.
        apply (Hok ((uw_group, local_group) :: pre) ug lg post w4 (t2 ++ t4));
          [reflexivity|].
        cbn [main_loop]. unfold bind. by rewrite Hs, Hpre.
      * exists w3, (t2 ++ t3). cbn [main_loop]. unfold bind.
        rewrite Hs, Hrest. split; [reflexivity|].
        rewrite List.filter_app, length_app, Hn, Hlen. reflexivity.
Qed.

(** C5. If the fetch fails for some mapping, at the state the run has
    reached when that mapping's turn comes, the process ends there with
    exit status 1: the trace stops at the FATAL line and the mappings
    after it are not processed.  If no fetch fails, [main] returns, so the
    exit status is 0, with a summary line for every mapping, whatever the
    outcome of the member additions and removals. *)
Theorem main_exit_status config w :
  (forall pre uw_group local_group post w1 t1 e w2 t2,
     group_map config = pre ++ (uw_group, local_group) :: post ->
     main_loop' config pre w = (inr tt, w1, t1) ->
     fetch_lists' config uw_group local_group w1 = (inl e, w2, t2) ->
     main' config w = (inl (SystemExit 1), w2, t1 ++ t2 ++ [fatal e])
     /\ exit_status (main' config w).1.1 = 1%Z)
  /\ ((forall pre uw_group local_group post w1 t1 e w2 t2,
         group_map config = pre ++ (uw_group, local_group) :: post ->
         main_loop' config pre w = (inr tt, w1, t1) ->
         fetch_lists' config uw_group local_group w1 <> (inl e, w2, t2)) ->
      exists w' t,
        main' config w = (inr tt, w', t)
        /\ exit_status (main' config w).1.1 = 0%Z
        /\ length (List.filter is_summary t) = length (group_map config)).
Proof.
  split.
  - intros pre uw_group local_group post w1 t1 e w2 t2 Hmap Hpre Hf.
    assert (Hmain : main' config w
                    = (inl (SystemExit 1), w2, t1 ++ t2 ++ [fatal e])).
    { unfold main. rewrite Hmap, main_loop_app. unfold bind at 1.
      rewrite Hpre. cbn [main_loop]. unfold bind.
      by rewrite (sync_group_failed _ _ _ _ _ _ _ Hf). }
    by rewrite Hmain.
  - intros Hok. destruct (main_loop_returns config (group_map config) w Hok)
      as (w' & t & Hmain & Hlen).
    exists w', t. unfold main. by rewrite Hmain.
Qed.

(** C10. When the fourth field of the local group record is empty, the
    parsed local list is [[""]]; the remote list never holds the empty
    string, so the two sets differ and the driver runs
    [gpasswd -d "" <local_group>]. *)
Theorem empty_member_field_removal config uw_group local_group w
    uw_list w1 t1 r w2 :
  get_uw_group_members requests_get (gws_base_url config) (gws_ca_cert config)
    (gws_client_cert config) (gws_client_key config) uw_group w
  = (inr uw_list, w1, t1) ->
  subprocess_run ["getent"; "group"; local_group] w1 = (inr r, w2) ->
  Py.split ":" (Py.strip (stdout r)) !! 3%nat = Some "" ->
  list_to_set uw_list ≠@{gset string} list_to_set [""]
  /\ exists res,
       Run ["gpasswd"; "-d"; ""; local_group] res
       ∈ (sync_group' config uw_group local_group w).2.
Proof.
  intros Huw Hrun Hfield.
  assert (Hne : "" ∉ uw_list).
  { revert Huw. unfold get_uw_group_members, bind, get, lift.
    destruct (requests_get _ _ _ w) as [[[name detail]|resp] w0]; cbn;
      [discriminate|].
    destruct (members_of_response resp) as [e|l] eqn:Hm; [discriminate|].
    intros [= <- _ _]. by eapply members_of_response_nonempty. }
  split.
  - intros Heq. apply Hne. apply (elem_of_list_to_set (C:=gset string)).
    rewrite Heq. apply elem_of_list_to_set. left.
  - assert (Hf : fetch_lists' config uw_group local_group w
                 = (inr (uw_list, [""]), w2,
                    t1 ++ [Run ["getent"; "group"; local_group] (inr r)] ++ [])).
    { unfold fetch_lists. unfold bind at 1. rewrite Huw.
      unfold get_local_group_members, bind, run. rewrite Hrun. cbn.
      rewrite Hfield. reflexivity. }
    unfold sync_group, bind. rewrite (fetch_fetched _ _ _ _ _ _ _ Hf).
    cbn [fst snd].
    destruct (reconcile_attempts uw_group local_group uw_list [""] w2)
      as (w' & ta & tr & a & n & -> & Ha & Hr).
    rewrite filter_cons_True, filter_nil in Hr by done.
    inversion Hr as [|m rest res t' n' Hres Hrest|m rest res e t' n' Hres Hrest];
      subst; exists res; cbn [snd];
      rewrite !elem_of_app; right; right; left; apply list_elem_of_here.
Qed.

(** *** Duplicates *)

(** C4, as the code has it. The fetcher returns a list: the ids of the
    entries of type [uwnetid] that the pattern accepts, in the order of the
    response and one element per entry, so an id that occurs twice in the
    response occurs twice in the list.  The driver invokes AddMember once
    per element of that list that is not in the local list. *)
Theorem fetcher_returns_list_with_repeats :
  (forall es : list (string * string),
     members_of_response (response es) = inr (map snd (List.filter kept es)))
  /\ (forall uw_group local_group uw_list local_list w,
        invoked "-a"
          (reconcile subprocess_run uw_group local_group uw_list local_list w).2
        = filter (λ m, m ∉ local_list) uw_list).
Proof.
  split.
  - intros es. unfold members_of_response, response. cbn.
    apply members_loop_entries.
  - intros uw_group local_group uw_list local_list w.
    destruct (reconcile_attempts uw_group local_group uw_list local_list w)
      as (w' & ta & tr & a & r & -> & Ha & Hr).
    cbn [snd]. rewrite !invoked_app.
    rewrite (attempts_invoked _ _ _ _ _ _ Ha).
    rewrite (attempts_invoked_other "-d" _ _ "-a" _ _ _ eq_refl Hr).
    cbn. by rewrite app_nil_r.
Qed.

(** The reader on a record whose member field is empty. *)
Lemma get_local_group_members_empty_field local_group w r w' :
  subprocess_run ["getent"; "group"; local_group] w = (inr r, w') ->
  Py.split ":" (Py.strip (stdout r)) !! 3%nat = Some "" ->
  get_local_group_members subprocess_run local_group w
  = (inr [""], w', [Run ["getent"; "group"; local_group] (inr r)]).
Proof.
  intros Hrun Hfield. unfold get_local_group_members, bind, run.
  rewrite Hrun. cbn. rewrite Hfield. reflexivity.
Qed.

End Driver.

(** ** Concrete runs *)

Import Scenario.


(** C1, on the code. For the record [empty:x:1001:] of a group without
    members the reader returns the one-element list [[""]], not the empty
    list. *)
Theorem empty_group_parsed_as_empty_string :
  get_local_group_members Sim.subprocess_run "empty" host
  = (inr [""], host,
     [Run ["getent"; "group"; "empty"]
        (inr {| returncode := 0;
                stdout := "empty:x:1001:" +:+ Sim.nl;
                stderr := "" |})]).
Proof. vm_compute. reflexivity. Qed.

(** A failed fetch for the first mapping ends the run: the second mapping,
    whose groups could be fetched, gets no request, no subprocess and no
    summary line. *)
Lemma fetch_failure_skips_later_mappings :
  Sim.main (Sim.config [("u_down", "staff"); ("u_mirror", "mirror")]) host
  = (inl (SystemExit 1), host,
     [Get (url "u_down") "ca.pem" ("cert.pem", "key.pem")
        (inl (OtherError "ConnectionError" (url "u_down")));
      fatal (OtherError "ConnectionError" (url "u_down"))])
  /\ (Sim.main (Sim.config [("u_mirror", "mirror")]) host).2 <> [].
Proof. split; [vm_compute; reflexivity | vm_compute; discriminate]. Qed.

Lemma fetch_failure_ends_run_witness :
  main_loop Sim.requests_get Sim.subprocess_run
    (Sim.config [("u_down", "staff"); ("u_mirror", "mirror")])
    [("u_down", "staff"); ("u_mirror", "mirror")] host
  = (inl (SystemExit 1), host,
     [Get (url "u_down") "ca.pem" ("cert.pem", "key.pem")
        (inl (OtherError "ConnectionError" (url "u_down")))]
     ++ [Print "FATAL: Error retrieving group members?"
           (Some (OtherError "ConnectionError" (url "u_down")))])
  /\ invoked "-a"
       [Get (url "u_down") "ca.pem" ("cert.pem", "key.pem")
          (inl (OtherError "ConnectionError" (url "u_down")))] = []
  /\ invoked "-d"
       [Get (url "u_down") "ca.pem" ("cert.pem", "key.pem")
          (inl (OtherError "ConnectionError" (url "u_down")))] = [].
Proof.
  apply (fetch_failure_ends_run Sim.requests_get Sim.subprocess_run).
  vm_compute. reflexivity.
Defined.

(** C3, on the code. An entry of type [uwnetid] whose id is [abc] followed
    by a newline is kept, although that id is not a personal NetID. *)
Theorem trailing_newline_id_is_kept :
  members_of_response (response [("uwnetid", "abc" +:+ Sim.nl)])
  = inr ["abc" +:+ Sim.nl]
  /\ personal_netid ("abc" +:+ Sim.nl) = false.
Proof. split; vm_compute; reflexivity. Qed.

(** An id that the response lists twice is returned twice, and AddMember is
    invoked twice for it. *)
Lemma repeated_id_is_added_twice :
  members_of_response (response [("uwnetid", "dave"); ("uwnetid", "dave")])
  = inr ["dave"; "dave"]
  /\ invoked "-a" (Sim.main (Sim.config [("u_twice", "staff")]) host).2
     = ["dave"; "dave"].
Proof. split; vm_compute; reflexivity. Qed.

Lemma main_exit_status_witness :
  (Sim.main (Sim.config [("u_twice", "staff"); ("u_down", "staff");
                         ("u_mirror", "mirror")]) host).1.1
  = inl (SystemExit 1)
  /\ exit_status
       (Sim.main (Sim.config [("u_twice", "staff"); ("u_down", "staff");
                              ("u_mirror", "mirror")]) host).1.1 = 1%Z
  /\ exit_status (Sim.main (Sim.config [("u_staff", "staff")]) host).1.1 = 0%Z.
Proof.
  pose proof (main_exit_status Sim.requests_get Sim.subprocess_run
                (Sim.config [("u_twice", "staff"); ("u_down", "staff");
                             ("u_mirror", "mirror")]) host) as [Hfail _].
  pose proof (main_exit_status Sim.requests_get Sim.subprocess_run
                (Sim.config [("u_staff", "staff")]) host) as [_ Hok].
  split; [|split].
  - edestruct (Hfail [("u_twice", "staff")] "u_down" "staff"
                 [("u_mirror", "mirror")]) as [Hmain _];
      [reflexivity | vm_compute; reflexivity | vm_compute; reflexivity |].
    unfold Sim.main. rewrite Hmain. reflexivity.
  - edestruct (Hfail [("u_twice", "staff")] "u_down" "staff"
                 [("u_mirror", "mirror")]) as [_ Hstatus];
      [reflexivity | vm_compute; reflexivity | vm_compute; reflexivity |].
    exact Hstatus.
  - destruct Hok as (w' & t & _ & Hstatus & _); [|exact Hstatus].
    intros pre uw_group local_group post w1 t1 e w2 t2 Hmap Hpre.
    destruct pre as [|m [|m' pre]]; cbn in Hmap; [|discriminate..].
    injection Hmap as <- <- <-. injection Hpre as <- <-.
    vm_compute. discriminate.
Defined.

(** The mirror group already holds the remote members, in another order. *)
Lemma equal_sets_no_mutation_witness :
  list_to_set ["alice"; "bob"] =@{gset string} list_to_set ["bob"; "alice"]
  /\ reconcile Sim.subprocess_run "u_mirror" "mirror"
       ["alice"; "bob"] ["bob"; "alice"] host
     = (inr tt, host,
        [Print ("UWGROUP: " +:+ "u_mirror" +:+ " LGROUP: " +:+ "mirror"
                  +:+ " ADD: 0 REM: 0") None]).
Proof.
  split; [vm_compute; reflexivity|].
  apply (equal_sets_no_mutation Sim.subprocess_run).
  vm_compute. reflexivity.
Defined.

Lemma mutator_exit_code_witness :
  (add_local_group_member Sim.subprocess_run "staff" "carol" host).1.1
  = inl (PyException ("gpasswd: user 'carol' does not exist" +:+ Sim.nl))
  /\ (remove_local_group_member Sim.subprocess_run "staff" "carol" host).1.1
     = inl (PyException
              ("gpasswd: user 'carol' is not a member of 'staff'" +:+ Sim.nl)).
Proof.
  destruct (mutator_exit_code Sim.subprocess_run "staff" "carol" host)
    as [Hadd Hremove].
  split.
  - edestruct Hadd as [_ Hfail]; [vm_compute; reflexivity|].
    apply Hfail. vm_compute. discriminate.
  - edestruct Hremove as [_ Hfail]; [vm_compute; reflexivity|].
    apply Hfail. vm_compute. discriminate.
Defined.

Lemma empty_member_field_removal_witness :
  exists res,
    Run ["gpasswd"; "-d"; ""; "empty"] res
    ∈ (sync_group Sim.requests_get Sim.subprocess_run
         (Sim.config [("u_nobody", "empty")]) "u_nobody" "empty" host).2.
Proof.
  edestruct (empty_member_field_removal Sim.requests_get Sim.subprocess_run
               (Sim.config [("u_nobody", "empty")]) "u_nobody" "empty" host)
    as [_ Hrun];
    [vm_compute; reflexivity | vm_compute; reflexivity
     | vm_compute; reflexivity | exact Hrun].
Defined.

(** *** The scenarios of the specification *)

Example scenario_remote_set :
  members_of_response
    (response [("uwnetid", "abc123"); ("uwnetid", "TooLongName9");
               ("group", "xyz")])
  = inr ["abc123"].
Proof. vm_compute. reflexivity. Qed.

Example scenario_local_list :
  Py.split "," "alice,bob" = ["alice"; "bob"]
  /\ (Py.split ":" (Py.strip ("mygroup:x:1001:alice,bob" +:+ Sim.nl))) !! 3%nat
     = Some "alice,bob".
Proof. split; vm_compute; reflexivity. Qed.

Example scenario_both_succeed :
  let '(r, w, t) := Sim.main (Sim.config [("u_staff", "staff")]) host_with_carol in
  exit_status r = 0%Z
  /\ invoked "-a" t = ["carol"] /\ invoked "-d" t = ["bob"]
  /\ printed t = ["UWGROUP: u_staff LGROUP: staff ADD: 1 REM: 1"]
  /\ Sim.lookup "staff" (Sim.groups w) = Some ["alice"; "carol"].
Proof. vm_compute. repeat split. Qed.

Example scenario_carol_fails :
  let '(r, w, t) := Sim.main (Sim.config [("u_staff", "staff")]) host in
  exit_status r = 0%Z
  /\ invoked "-a" t = ["carol"] /\ invoked "-d" t = ["bob"]
  /\ printed t = ["ERROR: Adding carol to staff?";
                  "UWGROUP: u_staff LGROUP: staff ADD: 0 REM: 1"]
  /\ Sim.lookup "staff" (Sim.groups w) = Some ["alice"].
Proof. vm_compute. repeat split. Qed.

(** ** Further properties *)

(** *** Strings *)

Lemma append_cons (c : ascii) (s t : string) :
  String c s +:+ t = String c (s +:+ t).
Proof. reflexivity. Qed.

Lemma append_assoc (s t u : string) : (s +:+ t) +:+ u = s +:+ t +:+ u.
Proof.
  induction s as [|c s IH]; [reflexivity|].
  by rewrite !append_cons, IH.
Qed.

Lemma count_char_app c (s t : string) :
  count_char c (s +:+ t) = count_char c s + count_char c t.
Proof.
  induction s as [|c' s IH]; [reflexivity|].
  rewrite append_cons. cbn [count_char]. rewrite IH. lia.
Qed.

Lemma all_chars_app p (s t : string) :
  all_chars p (s +:+ t) = all_chars p s && all_chars p t.
Proof.
  induction s as [|c s IH]; [reflexivity|].
  rewrite append_cons. cbn [all_chars]. by rewrite IH, andb_assoc.
Qed.

(** [split] cuts at every separator: one part more than separators. *)
Lemma length_split sep (s : string) :
  length (Py.split sep s) = S (count_char sep s).
Proof.
  induction s as [|c s IH]; [reflexivity|]. cbn [Py.split count_char].
  destruct (Ascii.eqb c sep); cbn [length]; [by rewrite IH|].
  destruct (Py.split sep s) as [|h t]; [discriminate|]. exact IH.
Qed.

Lemma split_parts sep (s : string) :
  Forall (fun part => count_char sep part = 0) (Py.split sep s).
Proof.
  induction s as [|c s IH]; [by repeat constructor|]. cbn [Py.split].
  destruct (Ascii.eqb c sep) eqn:Hc; [by constructor|].
  destruct (Py.split sep s) as [|h t]; [repeat constructor; cbn; by rewrite Hc|].
  inversion IH as [|? ? Hh Ht]; subst. constructor; [|done].
  cbn [count_char]. by rewrite Hc, Hh.
Qed.

Lemma split_whole sep (s : string) :
  count_char sep s = 0 -> Py.split sep s = [s].
Proof.
  induction s as [|c s IH]; [reflexivity|]. cbn [Py.split count_char].
  destruct (Ascii.eqb c sep); [discriminate|]. intros Hs.
  by rewrite IH.
Qed.

Lemma split_at_sep sep (s t : string) :
  count_char sep s = 0 ->
  Py.split sep (s +:+ String sep t) = s :: Py.split sep t.
Proof.
  induction s as [|c s IH].
  - intros _. change ("" +:+ String sep t) with (String sep t).
    cbn [Py.split]. by rewrite Ascii.eqb_refl.
  - rewrite append_cons. cbn [Py.split count_char].
    destruct (Ascii.eqb c sep); [discriminate|]. intros Hs.
    by rewrite IH.
Qed.

(** [",".join(l).split(",")] gives [l] back, for a non-empty [l] of strings
    without comma. *)
Lemma split_join sep (l : list string) :
  l <> [] ->
  Forall (fun part => count_char sep part = 0) l ->
  Py.split sep (Sim.join (String sep "") l) = l.
Proof.
  induction l as [|x l IH]; [done|]. intros _ Hl.
  inversion Hl as [|? ? Hx Hrest]; subst.
  destruct l as [|y l].
  - cbn [Sim.join]. by apply split_whole.
  - change (Sim.join (String sep "") (x :: y :: l))
      with (x +:+ String sep "" +:+ Sim.join (String sep "") (y :: l)).
    change (String sep "" +:+ Sim.join (String sep "") (y :: l))
      with (String sep (Sim.join (String sep "") (y :: l))).
    rewrite split_at_sep by done. by rewrite IH.
Qed.

Lemma append_not_empty (s : string) c (t : string) : s +:+ String c t <> "".
Proof. destruct s; discriminate. Qed.

(** Leading whitespace is taken from the first field only: the colon after
    it stops [lstrip]. *)
Lemma lstrip_stops_at_colon (name rest : string) :
  count_char ":" name = 0 ->
  exists name',
    Py.lstrip (name +:+ String ":" rest) = name' +:+ String ":" rest
    /\ count_char ":" name' = 0.
Proof.
  induction name as [|c name IH]; intros Hname.
  - by exists "".
  - rewrite append_cons. cbn [Py.lstrip].
    cbn [count_char] in Hname.
    destruct (Py.isspace c).
    + apply IH. lia.
    + exists (String c name). split; [reflexivity | exact Hname].
Qed.

Lemma rstrip_keeps_prefix (a b b' : string) :
  Py.rstrip b = b' -> b' <> "" -> Py.rstrip (a +:+ b) = a +:+ b'.
Proof.
  intros Hb Hne. induction a as [|c a IH]; [exact Hb|].
  rewrite !append_cons. cbn [Py.rstrip]. rewrite IH.
  destruct (a +:+ b') as [|c' r] eqn:Hr; [|reflexivity].
  destruct a; [by destruct Hne | discriminate].
Qed.

(** A final newline after text without whitespace is all [rstrip] takes. *)
Lemma rstrip_final_newline (s : string) :
  no_space s = true -> Py.rstrip (s +:+ Sim.nl) = s.
Proof.
  unfold no_space. induction s as [|c s IH]; [reflexivity|].
  cbn [all_chars]. intros [Hc Hs]%andb_true_iff.
  rewrite append_cons. cbn [Py.rstrip]. rewrite (IH Hs).
  apply negb_true_iff in Hc. rewrite Hc. by destruct s.
Qed.

Lemma rstrip_last_field (s : string) :
  no_space s = true -> Py.rstrip (String ":" (s +:+ Sim.nl)) = String ":" s.
Proof.
  intros Hs. cbn [Py.rstrip]. rewrite (rstrip_final_newline s Hs).
  by destruct s.
Qed.

Lemma join_plain (l : list string) :
  Forall (fun m => plain m = true) l ->
  count_char ":" (Sim.join "," l) = 0 /\ no_space (Sim.join "," l) = true.
Proof.
  induction l as [|x l IH]; [done|]. intros Hl.
  inversion Hl as [|? ? Hx Hrest]; subst.
  apply andb_true_iff in Hx as [[Hcolon%Nat.eqb_eq _]%andb_true_iff Hspace].
  destruct l as [|y l]; [done|].
  destruct (IH Hrest) as [IHc IHs].
  change (Sim.join "," (x :: y :: l)) with (x +:+ "," +:+ Sim.join "," (y :: l)).
  unfold no_space in *.
  rewrite !count_char_app, !all_chars_app, Hcolon, IHc, Hspace, IHs.
  done.
Qed.

Lemma strip_group_record (name passwd gid : string) (members : list string) :
  count_char ":" name = 0 ->
  Forall (fun m => plain m = true) members ->
  exists name',
    count_char ":" name' = 0
    /\ Py.strip (group_record name passwd gid members)
       = name' +:+ String ":" (passwd +:+ String ":" (gid +:+ String ":"
           (Sim.join "," members))).
Proof.
  intros Hname Hmem. unfold Py.strip, group_record.
  destruct (lstrip_stops_at_colon name
              (passwd +:+ ":" +:+ gid +:+ ":"
                 +:+ Sim.join "," members +:+ Sim.nl) Hname)
    as (name' & Hl & Hname').
  exists name'. split; [done|].
  change (name +:+ ":" +:+ passwd +:+ ":" +:+ gid +:+ ":"
            +:+ Sim.join "," members +:+ Sim.nl)
    with (name +:+ String ":" (passwd +:+ ":" +:+ gid +:+ ":"
            +:+ Sim.join "," members +:+ Sim.nl)).
  rewrite Hl.
  destruct (join_plain members Hmem) as [_ Hspace].
  change (name' +:+ String ":" (passwd +:+ ":" +:+ gid +:+ ":"
            +:+ Sim.join "," members +:+ Sim.nl))
    with (name' +:+ String ":" (passwd +:+ String ":" (gid
            +:+ String ":" (Sim.join "," members +:+ Sim.nl)))).
  pose proof (rstrip_last_field _ Hspace) as H1.
  pose proof (rstrip_keeps_prefix gid _ _ H1 ltac:(discriminate)) as H2.
  pose proof (rstrip_keeps_prefix ":" _ _ H2 (append_not_empty _ _ _)) as H3.
  pose proof (rstrip_keeps_prefix passwd _ _ H3 ltac:(discriminate)) as H4.
  pose proof (rstrip_keeps_prefix ":" _ _ H4 (append_not_empty _ _ _)) as H5.
  exact (rstrip_keeps_prefix name' _ _ H5 ltac:(discriminate)).
Qed.

(** *** The fetcher on arbitrary responses *)

(** X2. The loop over the data array is all or nothing.  When every entry has
    a [type], and every entry of type ["uwnetid"] a string [id], it returns
    the ids it keeps, in the order of the array, after what was collected
    before; as soon as one entry is not of that form it raises (an
    exception derived from [Exception]) and returns no partial list. *)
Theorem members_loop_all_or_nothing (data : list pyval) (acc : list string) :
  (forallb entry_ok data = true ->
   members_loop data acc = inr (acc ++ omap entry_kept data))
  /\ (forallb entry_ok data = false ->
      exists e, members_loop data acc = inl e /\ is_Exception e = true).
Proof.
  revert acc. induction data as [|member rest IH]; intros acc.
  - split; [intros _; cbn; by rewrite app_nil_r | discriminate].
  - cbn [forallb members_loop omap list_omap].
    destruct (getitem member "type") as [e|ty] eqn:Hty; cbn [ebind].
    { assert (Hok : entry_ok member = false) by (unfold entry_ok; by rewrite Hty).
      rewrite Hok. split; [discriminate|]. intros _. exists e.
      split; [reflexivity | by eapply getitem_Exception]. }
    destruct (eq_str ty "uwnetid") eqn:Heq.
    + destruct (getitem member "id") as [e|id] eqn:Hid; cbn [ebind].
      { assert (Hok : entry_ok member = false)
          by (unfold entry_ok; by rewrite Hty, Heq, Hid).
        rewrite Hok. split; [discriminate|]. intros _. exists e.
        split; [reflexivity | by eapply getitem_Exception]. }
      destruct id as [| | |s| |];
        try (assert (Hok : entry_ok member = false)
               by (unfold entry_ok; by rewrite Hty, Heq, Hid);
             rewrite Hok; split; [discriminate|]; intros _;
             exists TypeError; by split).
      assert (Hok : entry_ok member = true)
        by (unfold entry_ok; by rewrite Hty, Heq, Hid).
      rewrite Hok. cbn [andb].
      destruct (IH acc) as [IHok IHbad], (IH (acc ++ [s])) as [IHok' IHbad'].
      destruct (Py.re_match netid_re s) eqn:Hre.
      * assert (Hk : entry_kept member = Some s)
          by (unfold entry_kept; by rewrite Hty, Hid, Heq, Hre).
        rewrite Hk. split; [|exact IHbad'].
        intros Hrest. rewrite (IHok' Hrest). by rewrite <- app_assoc.
      * assert (Hk : entry_kept member = None)
          by (unfold entry_kept; by rewrite Hty, Hid, Heq, Hre).
        rewrite Hk. split; [exact IHok | exact IHbad].
    + assert (Hok : entry_ok member = true)
        by (unfold entry_ok; by rewrite Hty, Heq).
      assert (Hk : entry_kept member = None).
      { unfold entry_kept. rewrite Hty, Heq.
        by destruct (getitem member "id") as [e|[| | |s| |]]. }
      rewrite Hok, Hk. cbn [andb]. apply IH.
Qed.

Lemma length_append (s t : string) :
  String.length (s +:+ t) = String.length s + String.length t.
Proof.
  induction s as [|c s IH]; [reflexivity|].
  rewrite append_cons. cbn [String.length]. by rewrite IH.
Qed.

Lemma personal_netid_length (s : string) :
  personal_netid s = true -> 1 <= String.length s <= 8.
Proof.
  destruct s as [|c s]; [discriminate|]. cbn [personal_netid String.length].
  intros [[_ Hlen%Nat.leb_le]%andb_true_iff _]%andb_true_iff. lia.
Qed.

(** X3. Whatever the directory answers, every member the fetcher returns is a
    personal NetID, or a personal NetID followed by one newline: it is
    never empty and never longer than nine characters. *)
Theorem fetched_members_shape (r : Response) (l : list string) :
  members_of_response r = inr l ->
  Forall (fun s =>
            (personal_netid s = true
             \/ exists body, s = body +:+ Sim.nl /\ personal_netid body = true)
            /\ 1 <= String.length s <= 9) l.
Proof.
  unfold members_of_response. intros H.
  apply ebind_inr in H as (doc & _ & H).
  apply ebind_inr in H as (data & _ & H).
  apply ebind_inr in H as (items & _ & H).
  apply members_loop_accepted in H; [|constructor].
  eapply Forall_impl; [exact H|]. intros s Hs. cbn beta in Hs.
  apply netid_re_accepts in Hs. split; [exact Hs|].
  destruct Hs as [Hp|(body & -> & Hp)].
  - apply personal_netid_length in Hp. lia.
  - apply personal_netid_length in Hp. rewrite length_append. cbn. lia.
Qed.

(** *** The reader, the loops and the driver *)

Section Further.

#[local] Set Default Proof Using "Type".

Context {World : Type}.
Variable requests_get :
  string -> string -> string * string -> World -> (raised + Response) * World.
Variable subprocess_run :
  list string -> World -> (raised + CompletedProcess) * World.

#[local] Abbreviation reader := (get_local_group_members subprocess_run).
#[local] Abbreviation reconcile' := (reconcile subprocess_run).
#[local] Abbreviation fetch_lists' := (fetch_lists requests_get subprocess_run).
#[local] Abbreviation sync_group' := (sync_group requests_get subprocess_run).

(** X4. The reader looks at the output of [getent] only, never at its return
    code.  With fewer than three colons in the stripped output (an unknown
    group prints nothing) it raises [IndexError]; otherwise it returns a
    list that is never empty and whose elements hold no comma. *)
Theorem reader_needs_four_fields local_group w r w' :
  subprocess_run ["getent"; "group"; local_group] w = (inr r, w') ->
  (count_char ":" (Py.strip (stdout r)) < 3 ->
   reader local_group w
   = (inl IndexError, w', [Run ["getent"; "group"; local_group] (inr r)]))
  /\ (3 <= count_char ":" (Py.strip (stdout r)) ->
      exists l,
        reader local_group w
        = (inr l, w', [Run ["getent"; "group"; local_group] (inr r)])
        /\ l <> [] /\ Forall (fun m => count_char "," m = 0) l).
Proof.
  intros Hrun. unfold get_local_group_members, bind, run. rewrite Hrun.
  cbn [of_raised].
  pose proof (length_split ":" (Py.strip (stdout r))) as Hlen.
  split; intros Hcount.
  - rewrite (lookup_ge_None_2 _ 3) by lia. reflexivity.
  - destruct (lookup_lt_is_Some_2 (Py.split ":" (Py.strip (stdout r))) 3)
      as [field Hfield]; [lia|].
    rewrite Hfield. exists (Py.split "," field).
    split; [reflexivity|]. split; [|apply split_parts].
    intros Hnil. pose proof (length_split "," field) as Hl.
    by rewrite Hnil in Hl.
Qed.

(** X5. Round trip with the record format.  On the line
    [name:passwd:gid:m1,...,mk] and a newline, for a non-empty list of
    members that hold no colon, comma or whitespace, and no colon in the
    first three fields, the reader returns exactly [m1; ...; mk]. *)
Theorem reader_parses_group_record local_group w r w'
    (name passwd gid : string) (members : list string) :
  subprocess_run ["getent"; "group"; local_group] w = (inr r, w') ->
  stdout r = group_record name passwd gid members ->
  count_char ":" name = 0 ->
  count_char ":" passwd = 0 ->
  count_char ":" gid = 0 ->
  members <> [] ->
  Forall (fun m => plain m = true) members ->
  reader local_group w
  = (inr members, w', [Run ["getent"; "group"; local_group] (inr r)]).
Proof.
  intros Hrun Hout Hname Hpasswd Hgid Hne Hplain.
  unfold get_local_group_members, bind, run. rewrite Hrun. cbn [of_raised].
  rewrite Hout.
  destruct (strip_group_record name passwd gid members Hname Hplain)
    as (name' & Hname' & ->).
  destruct (join_plain members Hplain) as [Hcolon _].
  rewrite !split_at_sep, (split_whole _ _ Hcolon) by done.
  cbn [lookup list_lookup].
  rewrite (split_join "," members Hne); [reflexivity|].
  eapply Forall_impl; [exact Hplain|]. intros m Hm. cbn beta in Hm.
  by apply andb_true_iff in Hm as [[_ Hc%Nat.eqb_eq]%andb_true_iff _].
Qed.

(** X6. The remote list is fetched first: when that fails (transport error or
    a body that is not of the expected form) [getent] is not run, nor any
    other subprocess, and the process leaves with [sys.exit(1)]. *)
Theorem remote_failure_runs_nothing config uw_group local_group w e w1 t1 :
  get_uw_group_members requests_get (gws_base_url config) (gws_ca_cert config)
    (gws_client_cert config) (gws_client_key config) uw_group w
  = (inl e, w1, t1) ->
  sync_group' config uw_group local_group w
  = (inl (SystemExit 1), w1, t1 ++ [fatal e])
  /\ List.filter is_Run (t1 ++ [fatal e]) = [].
Proof.
  intros Huw.
  assert (Hf : fetch_lists' config uw_group local_group w = (inl e, w1, t1)).
  { unfold fetch_lists. unfold bind at 1. by rewrite Huw. }
  split; [by apply sync_group_failed|].
  revert Huw. unfold get_uw_group_members, bind, get, lift.
  destruct (requests_get _ _ _ w) as [[[name detail]|resp] w0]; cbn.
  - by intros [= _ _ <-].
  - destruct (members_of_response resp); [|discriminate].
    by intros [= _ _ <-].
Qed.

(** X7. Within a mapping every AddMember call comes before every RemoveMember
    call; the additions follow the order of the remote list, the removals
    that of the local list, and the summary is the last event. *)
Theorem additions_precede_removals uw_group local_group uw_list local_list w :
  exists w' ta tr line,
    reconcile' uw_group local_group uw_list local_list w
    = (inr tt, w', ta ++ tr ++ [Print line None])
    /\ invoked "-a" ta = filter (λ m, m ∉ local_list) uw_list
    /\ invoked "-d" ta = []
    /\ invoked "-d" tr = filter (λ m, m ∉ uw_list) local_list
    /\ invoked "-a" tr = [].
Proof.
  destruct (reconcile_attempts subprocess_run uw_group local_group
              uw_list local_list w)
    as (w' & ta & tr & a & r & Heq & Ha & Hr).
  exists w', ta, tr, (summary uw_group local_group a r).
  split; [exact Heq|].
  rewrite (attempts_invoked _ _ _ _ _ _ Ha), (attempts_invoked _ _ _ _ _ _ Hr).
  rewrite (attempts_invoked_other "-d" _ _ "-a" _ _ _ eq_refl Hr).
  rewrite (attempts_invoked_other "-a" _ _ "-d" _ _ _ eq_refl Ha).
  done.
Qed.

Lemma add_loop_idle local_group local_list members add_count w :
  Forall (λ m, m ∈ local_list) members ->
  add_loop subprocess_run local_group local_list members add_count w
  = (inr add_count, w, []).
Proof.
  induction 1 as [|member rest Hm _ IH]; [reflexivity|].
  cbn [add_loop]. rewrite not_contains.
  by rewrite bool_decide_eq_false_2 by (intros Hn; by apply Hn).
Qed.

Lemma remove_loop_idle local_group uw_list members remove_count w :
  Forall (λ m, m ∈ uw_list) members ->
  remove_loop subprocess_run local_group uw_list members remove_count w
  = (inr remove_count, w, []).
Proof.
  induction 1 as [|member rest Hm _ IH]; [reflexivity|].
  cbn [remove_loop]. rewrite not_contains.
  by rewrite bool_decide_eq_false_2 by (intros Hn; by apply Hn).
Qed.

Lemma same_set_Forall (l1 l2 : list string) :
  list_to_set l1 =@{gset string} list_to_set l2 -> Forall (λ m, m ∈ l2) l1.
Proof.
  intros Heq. apply Forall_forall. intros m Hm.
  apply (elem_of_list_to_set (C:=gset string)). rewrite <- Heq.
  by apply elem_of_list_to_set.
Qed.

(** X8. The comparison of the two sets is only a shortcut: on lists with the
    same elements both loops run no subprocess, print nothing and leave
    their counter as it was. *)
Theorem loops_idle_on_equal_sets local_group uw_list local_list count w :
  list_to_set uw_list =@{gset string} list_to_set local_list ->
  add_loop subprocess_run local_group local_list uw_list count w
  = (inr count, w, [])
  /\ remove_loop subprocess_run local_group uw_list local_list count w
     = (inr count, w, []).
Proof.
  intros Heq. split.
  - by apply add_loop_idle, same_set_Forall.
  - by apply remove_loop_idle, same_set_Forall.
Qed.

Lemma attempts_all_ok flag msg local_group ms t n :
  attempts flag msg local_group ms t n ->
  all_runs_ok t = true -> n = length ms /\ printed t = [].
Proof.
  induction 1 as [|m rest res t n Hres _ IH|m rest res e t n Hres _ IH];
    [done| |]; cbn [all_runs_ok forallb]; intros [Hok Hrest]%andb_true_iff.
  - destruct (IH Hrest) as [-> Hp]. by split.
  - apply failure_run_ok in Hok. congruence.
Qed.

Lemma all_runs_ok_app (t1 t2 : list event) :
  all_runs_ok (t1 ++ t2) = all_runs_ok t1 && all_runs_ok t2.
Proof. apply forallb_app. Qed.

Lemma printed_app (t1 t2 : list event) :
  printed (t1 ++ t2) = printed t1 ++ printed t2.
Proof. apply omap_app. Qed.

(** X9. When no mutation fails, a mapping prints one line and nothing else:
    [UWGROUP: <remote> LGROUP: <local> ADD: <a> REM: <r>], where [<a>] is,
    in decimal, the number of elements of the remote list missing from the
    local list and [<r>] the number of elements of the local list missing
    from the remote list (repeated elements counted each time). *)
Theorem counts_when_all_succeed uw_group local_group uw_list local_list w :
  all_runs_ok (reconcile' uw_group local_group uw_list local_list w).2 = true ->
  printed (reconcile' uw_group local_group uw_list local_list w).2
  = ["UWGROUP: " +:+ uw_group +:+ " LGROUP: " +:+ local_group
       +:+ " ADD: "
       +:+ NilEmpty.string_of_uint
             (Nat.to_uint (length (filter (λ m, m ∉ local_list) uw_list)))
       +:+ " REM: "
       +:+ NilEmpty.string_of_uint
             (Nat.to_uint (length (filter (λ m, m ∉ uw_list) local_list)))].
Proof.
  destruct (reconcile_attempts subprocess_run uw_group local_group
              uw_list local_list w)
    as (w' & ta & tr & a & r & -> & Ha & Hr).
  cbn [snd]. rewrite !all_runs_ok_app, !printed_app.
  intros [Hta [Htr _]%andb_true_iff]%andb_true_iff.
  destruct (attempts_all_ok _ _ _ _ _ _ Ha Hta) as [-> ->].
  destruct (attempts_all_ok _ _ _ _ _ _ Hr Htr) as [-> ->].
  reflexivity.
Qed.

Lemma filter_not_in_nil (l : list string) : filter (λ m, m ∉ []) l = l.
Proof.
  induction l as [|x l IH]; [reflexivity|].
  rewrite filter_cons_True by apply not_elem_of_nil. by rewrite IH.
Qed.

(** X10. An empty remote list empties the local group: RemoveMember is invoked
    for every element of the local list, in order, and AddMember for
    none. *)
Theorem empty_remote_removes_everyone uw_group local_group local_list w :
  invoked "-d" (reconcile' uw_group local_group [] local_list w).2 = local_list
  /\ invoked "-a" (reconcile' uw_group local_group [] local_list w).2 = [].
Proof.
  destruct (reconcile_attempts subprocess_run uw_group local_group
              [] local_list w)
    as (w' & ta & tr & a & r & -> & Ha & Hr).
  cbn [snd]. rewrite !invoked_app.
  rewrite (attempts_invoked _ _ _ _ _ _ Ha), (attempts_invoked _ _ _ _ _ _ Hr).
  rewrite (attempts_invoked_other "-d" _ _ "-a" _ _ _ eq_refl Hr).
  rewrite (attempts_invoked_other "-a" _ _ "-d" _ _ _ eq_refl Ha).
  rewrite filter_not_in_nil, filter_nil. cbn. by rewrite app_nil_r.
Qed.

(** The [try] block starts with the one request for the mapping; what
    follows holds no other request. *)
Lemma fetch_lists_request config uw_group local_group w :
  exists res rest,
    (fetch_lists' config uw_group local_group w).2
    = Get (gws_base_url config +:+ "/group/" +:+ uw_group +:+ "/member")
        (gws_ca_cert config) (gws_client_cert config, gws_client_key config)
        res :: rest
    /\ List.filter is_Get rest = [].
Proof.
  unfold fetch_lists, get_uw_group_members, get_local_group_members,
    bind, get, run, lift.
  destruct (requests_get _ _ _ w) as [r w1]. cbn.
  exists (of_raised r). destruct (of_raised r) as [e|resp]; cbn; [by eexists|].
  destruct (members_of_response resp) as [e|uw_list]; cbn; [by eexists|].
  destruct (subprocess_run _ w1) as [r2 w2]. cbn.
  destruct (of_raised r2) as [e|cp]; cbn; [by eexists|].
  destruct (Py.split ":" (Py.strip (stdout cp)) !! 3%nat); cbn; by eexists.
Qed.

(** X11. No retry and no second request: processing a mapping issues exactly
    one GET, to [<base>/group/<uw_group>/member] with the configured CA
    certificate and client certificate and key, before anything else. *)
Theorem one_request_per_mapping config uw_group local_group w :
  exists res rest,
    (sync_group' config uw_group local_group w).2
    = Get (gws_base_url config +:+ "/group/" +:+ uw_group +:+ "/member")
        (gws_ca_cert config) (gws_client_cert config, gws_client_key config)
        res :: rest
    /\ List.filter is_Get rest = [].
Proof.
  destruct (fetch_lists_request config uw_group local_group w)
    as (res & rest & Ht & Hrest).
  destruct (fetch_lists' config uw_group local_group w)
    as [[[e|lists] w1] t1] eqn:Hf; cbn [snd] in Ht; subst t1.
  - rewrite (sync_group_failed _ _ _ _ _ _ _ _ _ Hf). cbn [snd].
    exists res, (rest ++ [fatal e]). split; [reflexivity|].
    by rewrite List.filter_app, Hrest.
  - unfold sync_group, bind. rewrite (fetch_fetched _ _ _ _ _ _ _ _ _ Hf).
    destruct (reconcile_attempts subprocess_run uw_group local_group
                lists.1 lists.2 w1)
      as (w' & ta & tr & a & r & -> & Ha & Hr).
    cbn [snd]. eexists res, _. split; [reflexivity|].
    rewrite !List.filter_app, Hrest.
    by rewrite (attempts_no_Get _ _ _ _ _ _ Ha), (attempts_no_Get _ _ _ _ _ _ Hr).
Qed.

End Further.

(** X1. On a response of the documented shape the fetcher succeeds, and a
    string is among the members it returns exactly when the data array has
    an entry of type ["uwnetid"] with that id and the id is a personal
    NetID, or a personal NetID followed by one newline. *)
Theorem members_of_documented_response (es : list (string * string)) (s : string) :
  exists l,
    members_of_response (response es) = inr l
    /\ (s ∈ l
        <-> ("uwnetid", s) ∈ es
            /\ (personal_netid s = true
                \/ exists body, s = body +:+ Sim.nl /\ personal_netid body = true)).
Proof.
  exists (map snd (List.filter kept es)). split.
  - unfold members_of_response, response. cbn. apply members_loop_entries.
  - rewrite <- netid_re_accepts, list_elem_of_In, in_map_iff. split.
    + intros ([ty id] & Hid & [Hin Hk]%filter_In). cbn in Hid. subst id.
      apply andb_true_iff in Hk as [Hty%String.eqb_eq Hre]. cbn in Hty, Hre.
      subst ty. split; [by apply list_elem_of_In | done].
    + intros [Hin Hre]. exists ("uwnetid", s). split; [reflexivity|].
      apply filter_In. split; [by apply list_elem_of_In|].
      unfold kept. cbn [fst snd]. by rewrite Hre.
Qed.

(** *** Concrete runs of the further properties *)

Lemma members_loop_all_or_nothing_witness :
  members_loop [entry ("uwnetid", "alice"); PDict [("type", PStr "group")]] []
  = inr ["alice"]
  /\ exists e,
       members_loop [entry ("uwnetid", "alice"); PDict [("id", PStr "bob")]] []
       = inl e /\ is_Exception e = true.
Proof.
  split.
  - apply (members_loop_all_or_nothing
             [entry ("uwnetid", "alice"); PDict [("type", PStr "group")]] []).
    vm_compute. reflexivity.
  - apply (members_loop_all_or_nothing
             [entry ("uwnetid", "alice"); PDict [("id", PStr "bob")]] []).
    vm_compute. reflexivity.
Defined.

Lemma fetched_members_shape_witness :
  Forall (fun s =>
            (personal_netid s = true
             \/ exists body, s = body +:+ Sim.nl /\ personal_netid body = true)
            /\ 1 <= String.length s <= 9)
    ["alice"; "abc" +:+ Sim.nl].
Proof.
  apply (fetched_members_shape
           (response [("uwnetid", "alice"); ("group", "xyz");
                      ("uwnetid", "abc" +:+ Sim.nl)])).
  vm_compute. reflexivity.
Defined.

(** [getent] for a group the host does not know prints nothing and exits
    with code 2. *)
Lemma reader_needs_four_fields_witness :
  get_local_group_members Sim.subprocess_run "nogroup" host
  = (inl IndexError, host,
     [Run ["getent"; "group"; "nogroup"]
        (inr {| returncode := 2; stdout := ""; stderr := "" |})]).
Proof.
  edestruct (reader_needs_four_fields Sim.subprocess_run "nogroup" host)
    as [Hfew _]; [vm_compute; reflexivity|].
  apply Hfew. vm_compute. lia.
Defined.

Lemma reader_parses_group_record_witness :
  get_local_group_members Sim.subprocess_run "staff" host
  = (inr ["alice"; "bob"], host,
     [Run ["getent"; "group"; "staff"]
        (inr {| returncode := 0;
                stdout := group_record "staff" "x" "1001" ["alice"; "bob"];
                stderr := "" |})]).
Proof.
  apply (reader_parses_group_record Sim.subprocess_run "staff" host _ host
           "staff" "x" "1001" ["alice"; "bob"]);
    [vm_compute; reflexivity | reflexivity | reflexivity | reflexivity
     | reflexivity | discriminate | repeat constructor].
Defined.

Lemma remote_failure_runs_nothing_witness :
  sync_group Sim.requests_get Sim.subprocess_run
    (Sim.config [("u_down", "staff")]) "u_down" "staff" host
  = (inl (SystemExit 1), host,
     [Get (url "u_down") "ca.pem" ("cert.pem", "key.pem")
        (inl (OtherError "ConnectionError" (url "u_down")))]
     ++ [fatal (OtherError "ConnectionError" (url "u_down"))])
  /\ List.filter is_Run
       ([Get (url "u_down") "ca.pem" ("cert.pem", "key.pem")
           (inl (OtherError "ConnectionError" (url "u_down")))]
        ++ [fatal (OtherError "ConnectionError" (url "u_down"))]) = [].
Proof.
  apply (remote_failure_runs_nothing Sim.requests_get Sim.subprocess_run).
  vm_compute. reflexivity.
Defined.

Lemma loops_idle_on_equal_sets_witness :
  add_loop Sim.subprocess_run "mirror" ["bob"; "alice"] ["alice"; "bob"] 0 host
  = (inr 0, host, [])
  /\ remove_loop Sim.subprocess_run "mirror" ["alice"; "bob"] ["bob"; "alice"]
       0 host
     = (inr 0, host, []).
Proof.
  apply (loops_idle_on_equal_sets Sim.subprocess_run).
  vm_compute. reflexivity.
Defined.

Lemma counts_when_all_succeed_witness :
  printed (reconcile Sim.subprocess_run "u_staff" "staff"
             ["alice"; "carol"] ["alice"; "bob"] host_with_carol).2
  = ["UWGROUP: u_staff LGROUP: staff ADD: 1 REM: 1"].
Proof.
  etransitivity.
  - apply (counts_when_all_succeed Sim.subprocess_run).
    vm_compute. reflexivity.
  - vm_compute. reflexivity.
Defined.


(** *** What a mapping may touch *)

Lemma attempts_runs flag msg local_group ms t n :
  attempts flag msg local_group ms t n ->
  forall argv res,
    Run argv res ∈ t ->
    exists member, argv = ["gpasswd"; flag; member; local_group] /\ member ∈ ms.
Proof.
  induction 1 as [|m rest res0 t n Hres _ IH|m rest res0 e0 t n Hres _ IH];
    intros argv res Hin.
  - by apply elem_of_nil in Hin.
  - apply elem_of_cons in Hin as [[= -> ->]|Hin].
    + exists m. split; [reflexivity | left].
    + destruct (IH _ _ Hin) as (member & -> & Hm).
      exists member. split; [reflexivity | by right].
  - apply elem_of_cons in Hin as [[= -> ->]|Hin].
    + exists m. split; [reflexivity | left].
    + apply elem_of_cons in Hin as [[=]|Hin].
      destruct (IH _ _ Hin) as (member & -> & Hm).
      exists member. split; [reflexivity | by right].
Qed.

(** X14. The only subprocesses a mapping runs after the fetch are [gpasswd -a]
    and [gpasswd -d] on its own local group: [-a] only for a remote member
    that is not in the local list, [-d] only for a local member that is not
    in the remote list.  A member present on both sides is never touched. *)
Theorem reconcile_runs_only_the_delta {World : Type}
    (subprocess_run :
       list string -> World -> (raised + CompletedProcess) * World)
    uw_group local_group uw_list local_list w argv res :
  Run argv res
  ∈ (reconcile subprocess_run uw_group local_group uw_list local_list w).2 ->
  exists member,
    (argv = ["gpasswd"; "-a"; member; local_group]
     /\ member ∈ uw_list /\ member ∉ local_list)
    \/ (argv = ["gpasswd"; "-d"; member; local_group]
        /\ member ∈ local_list /\ member ∉ uw_list).
Proof.
  destruct (reconcile_attempts subprocess_run uw_group local_group
              uw_list local_list w)
    as (w' & ta & tr & a & r & -> & Ha & Hr).
  cbn [snd]. rewrite !elem_of_app. intros [Hin|[Hin|Hin]].
  - destruct (attempts_runs _ _ _ _ _ _ Ha _ _ Hin) as (member & -> & Hm).
    apply list_elem_of_filter in Hm as [Hn Hm]. exists member. by left.
  - destruct (attempts_runs _ _ _ _ _ _ Hr _ _ Hin) as (member & -> & Hm).
    apply list_elem_of_filter in Hm as [Hn Hm]. exists member. by right.
  - by apply list_elem_of_singleton in Hin.
Qed.

Lemma reconcile_runs_only_the_delta_witness :
  exists member,
    (["gpasswd"; "-d"; "bob"; "staff"] = ["gpasswd"; "-a"; member; "staff"]
     /\ member ∈ ["alice"; "carol"] /\ member ∉ ["alice"; "bob"])
    \/ (["gpasswd"; "-d"; "bob"; "staff"] = ["gpasswd"; "-d"; member; "staff"]
        /\ member ∈ ["alice"; "bob"] /\ member ∉ ["alice"; "carol"]).
Proof.
  apply (reconcile_runs_only_the_delta Sim.subprocess_run "u_staff" "staff"
           ["alice"; "carol"] ["alice"; "bob"] host
           ["gpasswd"; "-d"; "bob"; "staff"]
           (inr {| returncode := 0; stdout := ""; stderr := "" |})).
  vm_compute. do 2 right. left.
Defined.

(** The scenario of the specification: carol cannot be added, bob's
    removal still happens, and the line printed last reads
    [ADD: 0 REM: 1]. *)
Lemma mutation_failure_is_local_witness :
  exists w' t,
    reconcile Sim.subprocess_run "u_staff" "staff"
      ["alice"; "carol"] ["alice"; "bob"] host
    = (inr tt, w',
       t ++ [Print "UWGROUP: u_staff LGROUP: staff ADD: 0 REM: 1" None])
    /\ invoked "-a" t = ["carol"] /\ invoked "-d" t = ["bob"]
    /\ printed t = ["ERROR: Adding carol to staff?"].
Proof.
  destruct (mutation_failure_is_local Sim.subprocess_run "u_staff" "staff"
              ["alice"; "carol"] ["alice"; "bob"] host)
    as (w' & t & Heq & _).
  assert (Hrun :
            (reconcile Sim.subprocess_run "u_staff" "staff"
               ["alice"; "carol"] ["alice"; "bob"] host).2
            = [Run ["gpasswd"; "-a"; "carol"; "staff"]
                 (inr {| returncode := 3; stdout := "";
                         stderr := "gpasswd: user 'carol' does not exist"
                                     +:+ Sim.nl |});
               Print "ERROR: Adding carol to staff?"
                 (Some (PyException
                          ("gpasswd: user 'carol' does not exist" +:+ Sim.nl)));
               Run ["gpasswd"; "-d"; "bob"; "staff"]
                 (inr {| returncode := 0; stdout := ""; stderr := "" |})]
              ++ [Print "UWGROUP: u_staff LGROUP: staff ADD: 0 REM: 1" None])
    by (vm_compute; reflexivity).
  rewrite Heq in Hrun. cbn [snd] in Hrun.
  apply app_inj_tail in Hrun as [Ht _]. subst t.
  exists w'. eexists. split; [exact Heq|]. vm_compute. done.
Defined.
